(** * Zephyr fixed-wing controller: a shallow embedding of
    [suruiha_gazebo_plugins/src/zephyr_controller.cpp]

    The plugin keeps a commanded setpoint (throttle, pitch, roll), a list of
    joint bindings and two timestamps.  The host simulator calls
    [UpdateStates] once per simulation step; a message thread calls
    [SetControl] for every incoming twist.  Both take [update_mutex_] for
    their whole body, so a run of the plugin is a sequence of whole handler
    executions, which is how it is modelled here: state passing over a
    record, a trace of the effects on the outside world, and [None] for an
    access past the end of [joints_].

    Numbers.  The C++ [double] and gazebo's [common::Time] are modelled as
    exact rationals ([Q], seconds for times); NaN and infinities of binary64
    are outside the model, and so is rounding, with one exception: the test
    that decides whether a pose is published compares a rounded product
    with an integer, and there the last bit decides, so that product is
    evaluated in binary64 (round to nearest even, as [SpecFloat] defines
    it).  Equalities between computed values are stated with [==] ([Qeq])
    where arithmetic is involved, and with [=] where the code merely copies
    a value.  [int] and [uint32_t] values are never combined arithmetically
    by the code, so they are [Z] and [nat]. *)

From Stdlib Require Import Ascii String QArith Lqa ZArith Lia.
From Stdlib Require SpecFloat.
From stdpp Require Import base list strings gmap.

Local Open Scope Q_scope.

(** ** Numbers and comparisons *)

Definition Time : Type := Q.

(** [x < y] on doubles, as a boolean. *)
Definition Qlt_bool (x y : Q) : bool := negb (Qle_bool y x).

(** ** Binary64

    The doubles of the pose test, with the operations the code applies to
    them.  Precision 53 and exponent bound 1024 are those of binary64. *)

Definition binary64 : Type := SpecFloat.spec_float.

(** The conversion of an integer to [double]. *)
Definition b64_of_Z (n : BinNums.Z) : binary64 :=
  SpecFloat.binary_normalize 53 1024 n 0 false.

Definition b64_add (a b : binary64) : binary64 := SpecFloat.SFadd 53 1024 a b.
Definition b64_mul (a b : binary64) : binary64 := SpecFloat.SFmul 53 1024 a b.
Definition b64_div (a b : binary64) : binary64 := SpecFloat.SFdiv 53 1024 a b.

(** The rational a finite double denotes. *)
Definition b64_value (f : binary64) : Q :=
  match f with
  | SpecFloat.S754_finite s m e =>
      let v := inject_Z (Zpos m) * Qpower 2 e in
      if s then - v else v
  | _ => 0
  end.

(** The literal [1e-9]: the double nearest to one billionth. *)
Definition b64_1e_9 : binary64 := b64_div (b64_of_Z 1) (b64_of_Z 1000000000).

(** gazebo's [common::Time] holds a whole number of nanoseconds as a pair
    of seconds and nanoseconds of the same sign; [Time_nanoseconds] is that
    number for a time given in seconds. *)
Definition Time_nanoseconds (t : Time) : BinNums.Z :=
  (Qnum (t * 1000000000) ÷ Zpos (Qden (t * 1000000000)))%Z.

(** [common::Time::Double()]: [sec + nsec * 1e-9], in doubles. *)
Definition Time_Double (t : Time) : binary64 :=
  let ns := Time_nanoseconds t in
  let sec := (ns ÷ 1000000000)%Z in
  let nsec := Z.rem ns 1000000000 in
  b64_add (b64_of_Z sec) (b64_mul (b64_of_Z nsec) b64_1e_9).

(** ** Messages and host-side values *)

(** [geometry_msgs::Twist]: two vectors of three reals. *)
Module Vector3.
Record t := mk { x : Q; y : Q; z : Q }.
End Vector3.

Record Twist := { linear : Vector3.t; angular : Vector3.t }.

(** [ignition::math::Pose3d].  [Euler] stands for the result of the
    quaternion's [Euler()] method; the decomposition is the host's and is
    taken as given. *)
Record Quaternion := { QX : Q; QY : Q; QZ : Q; QW : Q; Euler : Vector3.t }.
Record Pose3d := { Pos : Vector3.t; Rot : Quaternion }.

(** [geometry_msgs::Pose], as filled in by [UpdateStates]. *)
Record PoseMsg := {
  position_x : Q; position_y : Q; position_z : Q;
  orientation_x : Q; orientation_y : Q; orientation_z : Q; orientation_w : Q
}.

(** The line end that closes a log message. *)
Definition endl : string := String "010"%char EmptyString.

(** A joint of the host model is identified by its name. *)
Definition JointHandle : Type := string.

(** Effects on the outside world, in the order they happen. *)
Inductive Event :=
| LogError (msg : string)                       (* gzerr *)
| LogFatal                                      (* ROS_FATAL_STREAM_NAMED *)
| PublishPose (msg : PoseMsg)                   (* pose_pub_.publish *)
| ActuatorCommand (h : JointHandle) (cmd : Q).  (* command applied to a host joint *)

Definition isPublishPose (e : Event) : bool :=
  match e with PublishPose _ => true | _ => false end.

Definition isActuatorCommand (e : Event) : bool :=
  match e with ActuatorCommand _ _ => true | _ => false end.

(** ** The PID regulator *)

Module PID.

(** Modelled from the spec: the regulator state of section 3 (gains, the
    two pairs of limits, the accumulated integral and the previous error);
    the regulator class is not part of the source file. *)
Record t := mk {
  p : Q; i : Q; d : Q;
  integralMin : Q; integralMax : Q;
  outputMin : Q; outputMax : Q;
  accumulatedIntegral : Q;
  previousError : Q
}.

(** Modelled from the spec: a freshly created regulator, which the source
    file never builds itself; zero gains, zero limits and zero
    accumulators. *)
Definition default : t := mk 0 0 0 0 0 0 0 0 0.

(** Modelled from the spec: [clamp(x, lo, hi)], hard clamping of [x] into
    the interval from [lo] to [hi]. *)
Definition clamp (x lo hi : Q) : Q :=
  if Qlt_bool x lo then lo else if Qlt_bool hi x then hi else x.

(** Modelled from the spec: the regulator's compute step (section 4.1 and
    the timing anomaly of section 7), which is not part of the source
    file.  With no elapsed time (zero, or negative after a clock reset) the
    integral and derivative steps are skipped and the output is purely
    proportional; otherwise the integral
    is accumulated and clamped, the derivative is the error difference
    over [dt], and the sum of the three terms is clamped.  The error is
    remembered in both cases.  Returns the output and the new state. *)
Definition compute (r : t) (target measured dt : Q) : Q * t :=
  let error := target - measured in
  if Qle_bool dt 0 then
    (clamp (p r * error) (outputMin r) (outputMax r),
     mk (p r) (i r) (d r) (integralMin r) (integralMax r)
        (outputMin r) (outputMax r) (accumulatedIntegral r) error)
  else
    let integral :=
      clamp (accumulatedIntegral r + error * dt) (integralMin r) (integralMax r) in
    let derivative := (error - previousError r) / dt in
    let rawOutput := p r * error + i r * integral + d r * derivative in
    (clamp rawOutput (outputMin r) (outputMax r),
     mk (p r) (i r) (d r) (integralMin r) (integralMax r)
        (outputMin r) (outputMax r) integral error).

(** Modelled from the spec: installing a gain block
    {p, i, d, integralMax, integralMin, outputMax, outputMin}; the
    accumulators are kept. *)
Definition SetParams (r : t) (p_ i_ d_ imax imin cmdmax cmdmin : Q) : t :=
  mk p_ i_ d_ imin imax cmdmin cmdmax (accumulatedIntegral r) (previousError r).

(** A call to the compute step: target, measurement, elapsed time. *)
Definition Call : Type := Q * Q * Q.

(** Runs a sequence of calls; returns the final state and, for every
    call in order, its output paired with the state it left behind. *)
Fixpoint run (r : t) (calls : list Call) : t * list (Q * t) :=
  match calls with
  | [] => (r, [])
  | (target, measured, dt) :: rest =>
      let '(out, r1) := compute r target measured dt in
      let '(r2, outs) := run r1 rest in
      (r2, (out, r1) :: outs)
  end.

End PID.

(** ** Joint bindings *)

Module JointControl.

(** Modelled from the spec: the kinds of joint of section 3. *)
Inductive JointType := Throttle | FlapLeft | FlapRight.

(** Modelled from the spec: a joint binding (section 3); the class is
    declared outside the source file, which uses its members [jointName]
    and [joint] and its methods. *)
Record t := mk {
  jointName : string;
  jointType : JointType;
  joint : option JointHandle;     (* nullptr is [None] *)
  pid : PID.t
}.

(** Modelled from the spec: what [new JointControl()] yields, the
    constructor being outside the source file: no name, no actuator and a
    default regulator. *)
Definition new : t := mk EmptyString Throttle None PID.default.

Definition set_jointName (s : string) (j : t) : t :=
  mk s (jointType j) (joint j) (pid j).
Definition set_jointType (k : JointType) (j : t) : t :=
  mk (jointName j) k (joint j) (pid j).
Definition set_joint (h : option JointHandle) (j : t) : t :=
  mk (jointName j) (jointType j) h (pid j).
Definition set_pid (r : PID.t) (j : t) : t :=
  mk (jointName j) (jointType j) (joint j) r.

Section Kinds.
(** The text-to-kind decoding done by [SetJointType] is not in the
    source file and the spec does not give the texts. *)
Variable decodeJointType : string → JointType.

Definition SetJointType (s : string) (j : t) : t :=
  set_jointType (decodeJointType s) j.
End Kinds.

(** Modelled from the spec: [JointControl::SetPIDParams] hands the gain
    block to the binding's regulator. *)
Definition SetPIDParams (j : t) (p i d imax imin cmdmax cmdmin : Q) : t :=
  set_pid (PID.SetParams (pid j) p i d imax imin cmdmax cmdmin) j.

(** Modelled from the spec: [applyCommand] (section 4.2),
    [JointControl::SetCommand] in the code, which is outside the source
    file.  The regulator is run on the target with the measurement fixed at
    zero and its output is forwarded to the bound actuator; a binding
    whose actuator was not resolved does nothing. *)
Definition SetCommand (j : t) (target : Q) (dt : Time) : t * list Event :=
  match joint j with
  | None => (j, [])
  | Some h =>
      let '(out, r) := PID.compute (pid j) target 0 dt in
      (set_pid r j, [ActuatorCommand h out])
  end.

End JointControl.

(** ** Configuration and host *)

(** One [<joint_control>] element: its name and type texts and its numeric
    children.  [HasElement k] is membership in [reals]; [Get<double>(k)]
    of a missing child yields the default 0. *)
Record JointControlSDF := {
  sdf_name : string;
  sdf_type : string;
  reals : gmap string Q
}.

Definition HasElement (e : JointControlSDF) (k : string) : bool :=
  bool_decide (is_Some (reals e !! k)).

Definition GetDouble (e : JointControlSDF) (k : string) : Q :=
  default 0 (reals e !! k).

(** The plugin's [_sdf] element: the pose interval and the sequence of
    [<joint_control>] siblings, in document order. *)
Record Sdf := {
  sdf_poseUpdateRate : BinNums.Z;
  joint_control : list JointControlSDF
}.

(** What [Load] sees of the host: the joints of the model it is attached to
    and whether the ROS node is up. *)
Record Host := {
  modelJoints : list string;
  rosInitialized : bool
}.

(** [model_->GetJoint(name)]: the joint, or null when the model has none of
    that name. *)
Definition GetJoint (h : Host) (name : string) : option JointHandle :=
  if bool_decide (name ∈ modelJoints h) then Some name else None.

(** What a tick sees of the host: the clock, the model's pose and the
    number of peers on the two topics. *)
Record World := {
  SimTime : Time;
  WorldPose : Pose3d;
  poseSubscribers : nat;       (* pose_pub_.getNumSubscribers() *)
  controlPublishers : nat      (* control_twist_sub_.getNumPublishers() *)
}.

(** ** The controller *)

Record ZephyrController := mkController {
  lastUpdateTime : Time;
  lastPosePublishTime : Time;
  targetThrottle : Q;
  targetPitch : Q;
  targetRoll : Q;
  poseUpdateRate : BinNums.Z;
  joints_ : list JointControl.t
}.

Definition set_lastUpdateTime (v : Time) (c : ZephyrController) :=
  mkController v (lastPosePublishTime c) (targetThrottle c) (targetPitch c)
    (targetRoll c) (poseUpdateRate c) (joints_ c).
Definition set_lastPosePublishTime (v : Time) (c : ZephyrController) :=
  mkController (lastUpdateTime c) v (targetThrottle c) (targetPitch c)
    (targetRoll c) (poseUpdateRate c) (joints_ c).
Definition set_targetThrottle (v : Q) (c : ZephyrController) :=
  mkController (lastUpdateTime c) (lastPosePublishTime c) v (targetPitch c)
    (targetRoll c) (poseUpdateRate c) (joints_ c).
Definition set_targetPitch (v : Q) (c : ZephyrController) :=
  mkController (lastUpdateTime c) (lastPosePublishTime c) (targetThrottle c) v
    (targetRoll c) (poseUpdateRate c) (joints_ c).
Definition set_targetRoll (v : Q) (c : ZephyrController) :=
  mkController (lastUpdateTime c) (lastPosePublishTime c) (targetThrottle c)
    (targetPitch c) v (poseUpdateRate c) (joints_ c).
Definition set_poseUpdateRate (v : BinNums.Z) (c : ZephyrController) :=
  mkController (lastUpdateTime c) (lastPosePublishTime c) (targetThrottle c)
    (targetPitch c) (targetRoll c) v (joints_ c).
Definition set_joints_ (v : list JointControl.t) (c : ZephyrController) :=
  mkController (lastUpdateTime c) (lastPosePublishTime c) (targetThrottle c)
    (targetPitch c) (targetRoll c) (poseUpdateRate c) v.

(** *** Methods as computations

    A method body reads and writes the controller, appends to the trace of
    effects, and is undefined ([None]) when it indexes [joints_] past its
    end. *)

Definition M (A : Type) : Type :=
  ZephyrController → option (A * ZephyrController * list Event).

Definition ret {A} (a : A) : M A := λ c, Some (a, c, []).

Definition bind {A B} (m : M A) (f : A → M B) : M B := λ c,
  match m c with
  | None => None
  | Some (a, c1, e1) =>
      match f a c1 with
      | None => None
      | Some (b, c2, e2) => Some (b, c2, e1 ++ e2)
      end
  end.

Definition get : M ZephyrController := λ c, Some (c, c, []).
Definition modify (f : ZephyrController → ZephyrController) : M unit :=
  λ c, Some (tt, f c, []).
Definition emit (e : Event) : M unit := λ c, Some (tt, c, [e]).
Definition when (b : bool) (m : M unit) : M unit := if b then m else ret tt.

Notation "'do' x <- m1 ; m2" := (bind m1 (λ x, m2))
  (at level 10, x name, m1 at level 100, m2 at level 200).
Notation "m1 ;; m2" := (bind m1 (λ _, m2))
  (at level 100, m2 at level 200, right associativity).

(** [ZephyrController::ZephyrController()].  [lastPosePublishTime] is
    default-constructed, which for gazebo's time is zero;
    [joints_] is an empty vector. *)
Definition ZephyrController_new : ZephyrController :=
  mkController 0 0 0 0 0 100 [].

(** [ZephyrController::SetPIDParams(jointControl, _sdf)]. *)
Definition SetPIDParams (jointControl : JointControl.t) (_sdf : JointControlSDF)
  : JointControl.t :=
  if HasElement _sdf "p" then
    let p := GetDouble _sdf "p" in
    let i := GetDouble _sdf "i" in
    let d := GetDouble _sdf "d" in
    let imax := GetDouble _sdf "imax" in
    let imin := GetDouble _sdf "imin" in
    let cmdmax := GetDouble _sdf "cmdmax" in
    let cmdmin := GetDouble _sdf "cmdmin" in
    JointControl.SetPIDParams jointControl p i d imax imin cmdmax cmdmin
  else jointControl.

Section Load.
Variable decodeJointType : string → JointControl.JointType.
Variable host : Host.

(** The body of the [while (jointControlSDF)] loop, for one element. *)
Definition LoadJoint (jointControlSDF : JointControlSDF) : M unit :=
  let jointControl := JointControl.new in
  let jointControl :=
    JointControl.set_jointName (sdf_name jointControlSDF) jointControl in
  let jointControl :=
    JointControl.SetJointType decodeJointType (sdf_type jointControlSDF) jointControl in
  let jointControl :=
    JointControl.set_joint (GetJoint host (JointControl.jointName jointControl))
      jointControl in
  when (bool_decide (JointControl.joint jointControl = None))
    (emit (LogError ("cannot get joint with name:"
                     +:+ JointControl.jointName jointControl +:+ endl))) ;;
  let jointControl := SetPIDParams jointControl jointControlSDF in
  modify (λ c, set_joints_ (joints_ c ++ [jointControl]) c).

(** The loop itself: [GetNextElement] walks the siblings in order. *)
Fixpoint LoadJoints (elems : list JointControlSDF) : M unit :=
  match elems with
  | [] => ret tt
  | jointControlSDF :: rest => LoadJoint jointControlSDF ;; LoadJoints rest
  end.

(** [ZephyrController::Load].  The result tells whether the plugin went on
    to subscribe, advertise and connect to the world update event; without
    a ROS node it returns before doing so and is never ticked. *)
Definition Load (_sdf : Sdf) : M bool :=
  modify (set_poseUpdateRate (sdf_poseUpdateRate _sdf)) ;;
  LoadJoints (joint_control _sdf) ;;
  if negb (rosInitialized host) then
    emit LogFatal ;; ret false
  else
    ret true.

End Load.

(** [joints_[i]->SetCommand(v, dt)]: the element must exist; the binding is
    updated in place. *)
Definition SetCommandAt (i : nat) (v : Q) (dt : Time) : M unit := λ c,
  match joints_ c !! i with
  | None => None
  | Some j =>
      let '(j', evs) := JointControl.SetCommand j v dt in
      Some (tt, set_joints_ (<[i := j']> (joints_ c)) c, evs)
  end.

(** [ZephyrController::CalculateJoints].  The [double] elapsed time of the
    caller is converted to gazebo's time for [dt]; on exact numbers the
    conversion is the identity. *)
Definition CalculateJoints (w : World)
  (targetThrottle targetPitch targetRoll : Q) (dt : Time) : M unit :=
  let pose := WorldPose w in
  let pitch := Vector3.x (Euler (Rot pose)) in
  let roll := Vector3.y (Euler (Rot pose)) in
  let pitch := pitch - targetPitch in
  let roll := roll - targetRoll in
  SetCommandAt 0 targetThrottle dt ;;
  SetCommandAt 1 (pitch - roll) dt ;;
  SetCommandAt 2 (pitch + roll) dt.

(** The message built from the model's pose. *)
Definition poseMsgOf (pose : Pose3d) : PoseMsg :=
  {| position_x := Vector3.x (Pos pose);
     position_y := Vector3.y (Pos pose);
     position_z := Vector3.z (Pos pose);
     orientation_x := QX (Rot pose);
     orientation_y := QY (Rot pose);
     orientation_z := QZ (Rot pose);
     orientation_w := QW (Rot pose) |}.

(** [ZephyrController::UpdateStates], the per-tick handler.  The elapsed
    milliseconds of the pose test are the double the code computes; the
    elapsed time for the joints goes through a double and back into a time,
    which for gaps of less than some 2^23 seconds returns the nanoseconds
    it started from, and is kept exact. *)
Definition UpdateStates (w : World) : M unit :=
  let currTime := SimTime w in
  when (0 <? poseSubscribers w)%nat
    (do c <- get;
     let dt_ :=
       b64_mul (Time_Double (currTime - lastPosePublishTime c)) (b64_of_Z 1000) in
     when (Qlt_bool (inject_Z (poseUpdateRate c)) (b64_value dt_))
       (let pose := WorldPose w in
        emit (PublishPose (poseMsgOf pose)) ;;
        modify (set_lastPosePublishTime currTime))) ;;
  when (0 <? controlPublishers w)%nat
    (do c <- get;
     let dt_ := currTime - lastUpdateTime c in
     let dt_ := if Qeq_bool (lastUpdateTime c) 0 then 0 else dt_ in
     CalculateJoints w (targetThrottle c) (targetPitch c) (targetRoll c) dt_) ;;
  modify (set_lastUpdateTime currTime).

(** [ZephyrController::SetControl], the command handler. *)
Definition SetControl (_twist : Twist) : M unit :=
  modify (set_targetThrottle (Vector3.x (linear _twist))) ;;
  modify (set_targetPitch (Vector3.y (angular _twist))) ;;
  modify (set_targetRoll (Vector3.x (angular _twist))).

(** *** Runs

    Both handlers hold [update_mutex_] from entry to exit, so the handlers
    never overlap and a run is a sequence of whole handler executions. *)
Inductive Action :=
| Tick (w : World)
| Command (_twist : Twist).

Definition step (a : Action) : M unit :=
  match a with
  | Tick w => UpdateStates w
  | Command m => SetControl m
  end.

Fixpoint run (acts : list Action) : M unit :=
  match acts with
  | [] => ret tt
  | a :: rest => step a ;; run rest
  end.

(** * Definitions used by the statements *)

(** The elapsed milliseconds from [t0] to [t1] as the code computes them:
    the value of the double [(t1 - t0).Double() * 1000]. *)
Definition elapsedMilliseconds (t1 t0 : Time) : Q :=
  b64_value (b64_mul (Time_Double (t1 - t0)) (b64_of_Z 1000)).

(** The test that guards the pose emission. *)
Definition poseDue (w : World) (c : ZephyrController) : bool :=
  (0 <? poseSubscribers w)%nat
  && Qlt_bool (inject_Z (poseUpdateRate c))
       (elapsedMilliseconds (SimTime w) (lastPosePublishTime c)).

(** The elapsed time handed to [CalculateJoints]. *)
Definition tick_dt (w : World) (c : ZephyrController) : Time :=
  if Qeq_bool (lastUpdateTime c) 0 then 0 else SimTime w - lastUpdateTime c.

(** The limits and gains are configuration: the compute step never changes
    them. *)
Definition sameParams (r r' : PID.t) : Prop :=
  PID.p r' = PID.p r ∧ PID.i r' = PID.i r ∧ PID.d r' = PID.d r
  ∧ PID.integralMin r' = PID.integralMin r ∧ PID.integralMax r' = PID.integralMax r
  ∧ PID.outputMin r' = PID.outputMin r ∧ PID.outputMax r' = PID.outputMax r.

(** Both bounds on a regulator, for one output and the state left behind. *)
Definition withinLimits (r : PID.t) (o : Q * PID.t) : Prop :=
  PID.integralMin r <= PID.accumulatedIntegral o.2 <= PID.integralMax r
  ∧ PID.outputMin r <= o.1 <= PID.outputMax r.

(** The binding [Load] builds for one element, and what it logs. *)
Definition bindingOf (decode : string → JointControl.JointType) (host : Host)
  (e : JointControlSDF) : JointControl.t :=
  SetPIDParams
    (JointControl.mk (sdf_name e) (decode (sdf_type e)) (GetJoint host (sdf_name e))
       PID.default) e.

Definition loadLog (host : Host) (e : JointControlSDF) : list Event :=
  if bool_decide (sdf_name e ∈ modelJoints host) then []
  else [LogError ("cannot get joint with name:" +:+ sdf_name e +:+ endl)].

(** The setpoint a controller holds, and the one a message carries. *)
Definition setpoint (c : ZephyrController) : Q * Q * Q :=
  (targetThrottle c, targetPitch c, targetRoll c).

Definition setpointOf (m : Twist) : Q * Q * Q :=
  (Vector3.x (linear m), Vector3.y (angular m), Vector3.x (angular m)).

(** The last command message of a run, if any. *)
Fixpoint lastCommand (acts : list Action) : option Twist :=
  match acts with
  | [] => None
  | a :: rest =>
      match lastCommand rest with
      | Some m => Some m
      | None => match a with Command m => Some m | Tick _ => None end
      end
  end.

(** The number of poses published by a run. *)
Definition posesOf (r : option (unit * ZephyrController * list Event)) : nat :=
  match r with
  | Some (_, _, evs) => length (filter isPublishPose evs)
  | None => 0%nat
  end.

(** * Sample data *)

(** A regulator with unit proportional gain and roomy limits. *)
Definition sample_pid : PID.t := PID.mk 1 0 0 (-1) 1 (-10) 10 0 0.

(** Three calls with large inputs, the first with no elapsed time. *)
Definition sample_calls : list PID.Call :=
  [(100, 0, 0); (100, 0, 1); (-1000, 3, 0.5)].

Definition sample_joint (name : string) : JointControl.t :=
  JointControl.mk name JointControl.Throttle (Some name) sample_pid.

(** An attitude with pitch 0.3 and roll 0. *)
Definition sample_pose : Pose3d :=
  {| Pos := Vector3.mk 1 2 3;
     Rot := {| QX := 0; QY := 0; QZ := 0; QW := 1; Euler := Vector3.mk 0.3 0 0 |} |}.

(** Three bound joints, setpoint (0.5, 0.1, 0), never ticked. *)
Definition sample_controller : ZephyrController :=
  mkController 0 0 0.5 0.1 0 100
    [sample_joint "propeller"; sample_joint "left"; sample_joint "right"].

(** Half a second into the simulation, one peer on each topic. *)
Definition sample_world : World :=
  {| SimTime := 0.5; WorldPose := sample_pose;
     poseSubscribers := 1; controlPublishers := 1 |}.



(** The same with nobody publishing commands. *)
Definition sample_world_idle : World :=
  {| SimTime := 0.5; WorldPose := sample_pose;
     poseSubscribers := 1; controlPublishers := 0 |}.

(** Ticks ten milliseconds apart: tick [n] happens at [n / 100] seconds,
    with one peer on each topic. *)
Definition tick_at (n : nat) : Action :=
  Tick {| SimTime := inject_Z (Z.of_nat n) / 100; WorldPose := sample_pose;
          poseSubscribers := 1; controlPublishers := 1 |}.

(** A host model without a left flap. *)
Definition sample_host : Host :=
  {| modelJoints := ["propeller_joint"; "flap_right_joint"]; rosInitialized := true |}.

(** A configuration with three joints, the second of which is unknown to
    [sample_host], and gains for the first only. *)
Definition sample_sdf : Sdf :=
  {| sdf_poseUpdateRate := 100;
     joint_control :=
       [ {| sdf_name := "propeller_joint"; sdf_type := "throttle";
            reals := <["p" := 2]> (<["cmdmax" := 10]> (<["cmdmin" := -10]> ∅)) |};
         {| sdf_name := "flap_left_joint"; sdf_type := "flap_left"; reals := ∅ |};
         {| sdf_name := "flap_right_joint"; sdf_type := "flap_right"; reals := ∅ |} ] |}.

(** Only two joints configured. *)
Definition sample_sdf_short : Sdf :=
  {| sdf_poseUpdateRate := 100;
     joint_control :=
       [ {| sdf_name := "propeller_joint"; sdf_type := "throttle"; reals := ∅ |};
         {| sdf_name := "flap_right_joint"; sdf_type := "flap_right"; reals := ∅ |} ] |}.

Definition sample_decode (s : string) : JointControl.JointType :=
  if bool_decide (s = "throttle") then JointControl.Throttle
  else if bool_decide (s = "flap_left") then JointControl.FlapLeft
  else JointControl.FlapRight.

Definition sample_twist (throttle pitch roll : Q) : Twist :=
  {| linear := Vector3.mk throttle 0 0; angular := Vector3.mk roll pitch 0 |}.

(** * Definitions for the run-level properties *)

(** The last tick of a run, if any. *)
Fixpoint lastTick (acts : list Action) : option World :=
  match acts with
  | [] => None
  | a :: rest =>
      match lastTick rest with
      | Some w => Some w
      | None => match a with Tick w => Some w | Command _ => None end
      end
  end.

(** A step that reaches [CalculateJoints]: a tick that sees a publisher on
    the command topic. *)
Definition commandsJoints (a : Action) : bool :=
  match a with
  | Tick w => (0 <? controlPublishers w)%nat
  | Command _ => false
  end.

(** A step that may publish at all: a tick that sees a subscriber on the
    pose topic. *)
Definition hasPoseSubscriber (a : Action) : bool :=
  match a with
  | Tick w => (0 <? poseSubscribers w)%nat
  | Command _ => false
  end.

(** A step that stays within the pose interval counted from [t0]: a
    command, or a tick for which the elapsed milliseconds since [t0], as
    the code computes them, do not exceed [rate]. *)
Definition withinInterval (t0 : Time) (rate : BinNums.Z) (a : Action) : Prop :=
  match a with
  | Tick w => elapsedMilliseconds (SimTime w) t0 <= inject_Z rate
  | Command _ => True
  end.

(** The error [Load] logs for an element whose joint the host lacks. *)
Definition jointError (e : JointControlSDF) : Event :=
  LogError ("cannot get joint with name:" +:+ sdf_name e +:+ endl).

(** A run that starts on a command message, then ticks twice with the
    clock set back in between. *)
Definition sample_run : list Action :=
  [Command (sample_twist 1 0 0); Tick sample_world; Tick sample_world_idle;
   tick_at 10; tick_at 20].

(** A host without a ROS node. *)
Definition sample_host_no_ros : Host :=
  {| modelJoints := ["propeller_joint"; "flap_right_joint"]; rosInitialized := false |}.

(** A controller with a fourth binding. *)
Definition sample_controller4 : ZephyrController :=
  mkController 0 0 0.5 0.1 0 100
    [sample_joint "propeller"; sample_joint "left"; sample_joint "right";
     sample_joint "spare"].

(** The world of [tick_at n]. *)
Definition sample_tickw (n : nat) : World :=
  {| SimTime := inject_Z (Z.of_nat n) / 100; WorldPose := sample_pose;
     poseSubscribers := 1; controlPublishers := 1 |}.

(** A controller that last published at 0.5 s; the clock is then set back
    to zero. *)
Definition sample_after_reset : ZephyrController :=
  set_lastPosePublishTime 0.5 sample_controller.

(** * Properties *)

(** ** Comparisons *)

Lemma Qlt_bool_iff (x y : Q) : Qlt_bool x y = true ↔ x < y.
Proof.
  unfold Qlt_bool. rewrite negb_true_iff.
  destruct (Qle_bool y x) eqn:E.
  - apply Qle_bool_iff in E. split; [discriminate | intros H; lra].
  - split; [intros _ | reflexivity].
    destruct (Qlt_le_dec x y) as [H | H]; [exact H |].
    apply Qle_bool_iff in H. congruence.
Qed.

Lemma Qlt_bool_false (x y : Q) : Qlt_bool x y = false ↔ y <= x.
Proof. unfold Qlt_bool. rewrite negb_false_iff. apply Qle_bool_iff. Qed.

(** ** The computation monad *)

Lemma bind_Some {A B} (m : M A) (f : A → M B) c a c1 e1 b c2 e2 :
  m c = Some (a, c1, e1) → f a c1 = Some (b, c2, e2) →
  bind m f c = Some (b, c2, e1 ++ e2).
Proof. intros H1 H2. unfold bind. by rewrite H1, H2. Qed.

Lemma bind_None_l {A B} (m : M A) (f : A → M B) c :
  m c = None → bind m f c = None.
Proof. intros H. unfold bind. by rewrite H. Qed.

Lemma bind_inv {A B} (m : M A) (f : A → M B) c b c2 evs :
  bind m f c = Some (b, c2, evs) →
  ∃ a c1 e1 e2, m c = Some (a, c1, e1) ∧ f a c1 = Some (b, c2, e2) ∧ evs = e1 ++ e2.
Proof.
  unfold bind. destruct (m c) as [[[a c1] e1]|]; [|done].
  destruct (f a c1) as [[[b' c2'] e2]|] eqn:Hf; [|done].
  intros [= -> -> <-]. by exists a, c1, e1, e2.
Qed.

(** ** Indexing the joint list *)

Lemma SetCommandAt_Some i v dt c j :
  joints_ c !! i = Some j →
  SetCommandAt i v dt c =
    Some (tt, set_joints_ (<[i := (JointControl.SetCommand j v dt).1]> (joints_ c)) c,
          (JointControl.SetCommand j v dt).2).
Proof.
  intros H. unfold SetCommandAt. rewrite H.
  by destruct (JointControl.SetCommand j v dt).
Qed.

Lemma SetCommandAt_None i v dt c :
  (length (joints_ c) ≤ i)%nat → SetCommandAt i v dt c = None.
Proof.
  intros H. unfold SetCommandAt. by rewrite (lookup_ge_None_2 _ _ H).
Qed.

Lemma SetCommandAt_is_Some i v dt c :
  is_Some (SetCommandAt i v dt c) ↔ (i < length (joints_ c))%nat.
Proof.
  split.
  - intros [r Hr]. destruct (decide (i < length (joints_ c))%nat) as [|Hn]; [done|].
    rewrite SetCommandAt_None in Hr by lia. done.
  - intros H. destruct (lookup_lt_is_Some_2 _ _ H) as [j Hj].
    rewrite (SetCommandAt_Some _ _ _ _ _ Hj). by eexists.
Qed.

(** The three calls of [CalculateJoints] on a list with at least three
    bindings. *)
Lemma CalculateJoints_three w tT tP tR dt c j0 j1 j2 rest :
  joints_ c = j0 :: j1 :: j2 :: rest →
  CalculateJoints w tT tP tR dt c =
    let pitch := Vector3.x (Euler (Rot (WorldPose w))) - tP in
    let roll := Vector3.y (Euler (Rot (WorldPose w))) - tR in
    let r0 := JointControl.SetCommand j0 tT dt in
    let r1 := JointControl.SetCommand j1 (pitch - roll) dt in
    let r2 := JointControl.SetCommand j2 (pitch + roll) dt in
    Some (tt, set_joints_ (r0.1 :: r1.1 :: r2.1 :: rest) c, r0.2 ++ r1.2 ++ r2.2).
Proof.
  intros Hj. cbv zeta. unfold CalculateJoints, bind, SetCommandAt. cbv zeta.
  rewrite Hj. simpl.
  destruct (JointControl.SetCommand j0 _ _) as [j0' e0]. simpl.
  destruct (JointControl.SetCommand j1 _ _) as [j1' e1]. simpl.
  destruct (JointControl.SetCommand j2 _ _) as [j2' e2]. simpl.
  reflexivity.
Qed.

Lemma CalculateJoints_short w tT tP tR dt c :
  (length (joints_ c) < 3)%nat → CalculateJoints w tT tP tR dt c = None.
Proof.
  intros Hlen. unfold CalculateJoints. cbv zeta.
  destruct (joints_ c) as [|j0 [|j1 [|j2 rest]]] eqn:Hj; simpl in Hlen; try lia.
  - apply bind_None_l, SetCommandAt_None. rewrite Hj. simpl. lia.
  - unfold bind. rewrite SetCommandAt_Some with (j := j0) by (by rewrite Hj).
    rewrite SetCommandAt_None; [done|]. simpl. rewrite Hj. simpl. lia.
  - unfold bind. rewrite SetCommandAt_Some with (j := j0) by (by rewrite Hj).
    rewrite SetCommandAt_Some with (j := j1) by (simpl; by rewrite Hj).
    rewrite SetCommandAt_None; [done|]. simpl. rewrite Hj. simpl. lia.
Qed.

Lemma list_three {A} (l : list A) :
  (3 ≤ length l)%nat → ∃ a b c rest, l = a :: b :: c :: rest.
Proof.
  destruct l as [|a [|b [|c rest]]]; simpl; try lia. intros _. by exists a, b, c, rest.
Qed.

Lemma SetCommand_events j v dt :
  (JointControl.SetCommand j v dt).2 = [] ∨
  ∃ h out, (JointControl.SetCommand j v dt).2 = [ActuatorCommand h out].
Proof.
  unfold JointControl.SetCommand. destruct (JointControl.joint j) as [h|]; [|by left].
  destruct (PID.compute _ _ _ _) as [out r]. right. by exists h, out.
Qed.

Lemma SetCommand_filter j v dt :
  filter isActuatorCommand (JointControl.SetCommand j v dt).2
    = (JointControl.SetCommand j v dt).2
  ∧ filter isPublishPose (JointControl.SetCommand j v dt).2 = [].
Proof.
  destruct (SetCommand_events j v dt) as [-> | (h & out & ->)]; done.
Qed.

(** [CalculateJoints] reads and writes nothing but [joints_], and its only
    effects are actuator commands. *)
Lemma CalculateJoints_inv w tT tP tR dt c u c' evs :
  CalculateJoints w tT tP tR dt c = Some (u, c', evs) →
  (3 ≤ length (joints_ c))%nat
  ∧ c' = set_joints_ (joints_ c') c
  ∧ length (joints_ c') = length (joints_ c)
  ∧ filter isActuatorCommand evs = evs
  ∧ filter isPublishPose evs = [].
Proof.
  intros H.
  destruct (decide (3 ≤ length (joints_ c))%nat) as [Hlen | Hlen];
    [| rewrite CalculateJoints_short in H by lia; done].
  destruct (list_three _ Hlen) as (j0 & j1 & j2 & rest & Hj).
  rewrite (CalculateJoints_three _ _ _ _ _ _ _ _ _ _ Hj) in H. cbv zeta in H.
  injection H as _ <- <-.
  split; [done|]. split; [done|]. split; [by rewrite Hj|].
  rewrite !filter_app.
  split.
  - by rewrite !(proj1 (SetCommand_filter _ _ _)).
  - by rewrite !(proj2 (SetCommand_filter _ _ _)).
Qed.

Lemma CalculateJoints_set_lastPosePublishTime w tT tP tR dt t c :
  CalculateJoints w tT tP tR dt (set_lastPosePublishTime t c) =
    match CalculateJoints w tT tP tR dt c with
    | None => None
    | Some (u, c', evs) => Some (u, set_lastPosePublishTime t c', evs)
    end.
Proof.
  destruct (decide (3 ≤ length (joints_ c))%nat) as [Hlen | Hlen].
  - destruct (list_three _ Hlen) as (j0 & j1 & j2 & rest & Hj).
    rewrite (CalculateJoints_three _ _ _ _ _ c _ _ _ _ Hj).
    by rewrite (CalculateJoints_three _ _ _ _ _ (set_lastPosePublishTime t c) _ _ _ _ Hj).
  - rewrite !CalculateJoints_short; [done | lia | simpl; lia].
Qed.

(** ** One tick, unfolded *)

Lemma UpdateStates_unfold w c :
  UpdateStates w c =
    let c1 := if poseDue w c then set_lastPosePublishTime (SimTime w) c else c in
    let ev1 := if poseDue w c then [PublishPose (poseMsgOf (WorldPose w))] else [] in
    if (0 <? controlPublishers w)%nat then
      match CalculateJoints w (targetThrottle c) (targetPitch c) (targetRoll c)
              (tick_dt w c) c1 with
      | None => None
      | Some (_, c2, ev2) => Some (tt, set_lastUpdateTime (SimTime w) c2, ev1 ++ ev2)
      end
    else Some (tt, set_lastUpdateTime (SimTime w) c1, ev1).
Proof.
  unfold UpdateStates, poseDue, tick_dt, bind, when, get, modify, emit, ret.
  cbv zeta.
  destruct (0 <? poseSubscribers w)%nat; simpl;
    [destruct (Qlt_bool _ _); simpl |];
    (destruct (0 <? controlPublishers w)%nat; simpl; [|reflexivity]);
    (destruct (CalculateJoints _ _ _ _ _ _) as [[[u c2] ev2]|]; simpl; [|reflexivity]);
    by rewrite ?app_nil_r.
Qed.

Lemma filter_pose_cons m evs :
  filter isPublishPose (PublishPose m :: evs) = PublishPose m :: filter isPublishPose evs.
Proof. reflexivity. Qed.

Lemma filter_act_cons_pose m evs :
  filter isActuatorCommand (PublishPose m :: evs) = filter isActuatorCommand evs.
Proof. reflexivity. Qed.

(** What a completed tick did. *)
Lemma UpdateStates_inv w c u c' evs :
  UpdateStates w c = Some (u, c', evs) →
  lastUpdateTime c' = SimTime w
  ∧ lastPosePublishTime c'
      = (if poseDue w c then SimTime w else lastPosePublishTime c)
  ∧ filter isPublishPose evs
      = (if poseDue w c then [PublishPose (poseMsgOf (WorldPose w))] else [])
  ∧ (targetThrottle c', targetPitch c', targetRoll c', poseUpdateRate c')
      = (targetThrottle c, targetPitch c, targetRoll c, poseUpdateRate c)
  ∧ (if (0 <? controlPublishers w)%nat then
       ∃ cj, CalculateJoints w (targetThrottle c) (targetPitch c) (targetRoll c)
               (tick_dt w c) c = Some (tt, cj, filter isActuatorCommand evs)
             ∧ joints_ c' = joints_ cj
     else joints_ c' = joints_ c ∧ filter isActuatorCommand evs = []).
Proof.
  rewrite UpdateStates_unfold. cbv zeta.
  destruct (0 <? controlPublishers w)%nat.
  - destruct (poseDue w c).
    + rewrite CalculateJoints_set_lastPosePublishTime.
      destruct (CalculateJoints _ _ _ _ _ c) as [[[[] cj] ev2]|] eqn:HJ; [|done].
      intros [= _ <- <-].
      destruct (CalculateJoints_inv _ _ _ _ _ _ _ _ _ HJ) as (_ & Hc & _ & Hact & Hpose).
      simpl app. rewrite filter_pose_cons, filter_act_cons_pose, Hact, Hpose.
      rewrite Hc. simpl.
      repeat split; try done. exists cj. by rewrite <- Hc.
    + destruct (CalculateJoints _ _ _ _ _ c) as [[[[] cj] ev2]|] eqn:HJ; [|done].
      intros [= _ <- <-].
      destruct (CalculateJoints_inv _ _ _ _ _ _ _ _ _ HJ) as (_ & Hc & _ & Hact & Hpose).
      simpl app. rewrite Hact, Hpose. rewrite Hc. simpl.
      repeat split; try done. exists cj. by rewrite <- Hc.
  - intros [= _ <- <-]. by destruct (poseDue w c).
Qed.

(** A tick is defined exactly when it does not index past the end of
    [joints_]. *)
Lemma UpdateStates_is_Some w c :
  is_Some (UpdateStates w c)
  ↔ (controlPublishers w = 0%nat ∨ (3 ≤ length (joints_ c))%nat).
Proof.
  rewrite UpdateStates_unfold. cbv zeta.
  destruct (0 <? controlPublishers w)%nat eqn:Hp.
  - apply Nat.ltb_lt in Hp.
    assert (Hlen : ∀ t, length (joints_ (if poseDue w c
               then set_lastPosePublishTime t c else c)) = length (joints_ c))
      by (intros t; by destruct (poseDue w c)).
    split.
    + destruct (CalculateJoints _ _ _ _ _ _) as [[[u cj] ev2]|] eqn:HJ.
      * intros _. right.
        destruct (CalculateJoints_inv _ _ _ _ _ _ _ _ _ HJ) as (H3 & _).
        by rewrite Hlen in H3.
      * by intros [? ?].
    + intros [H0 | H3]; [lia|].
      rewrite <- (Hlen (SimTime w)) in H3.
      destruct (list_three _ H3) as (j0 & j1 & j2 & rest & Hj).
      rewrite (CalculateJoints_three _ _ _ _ _ _ _ _ _ _ Hj). cbv zeta. by eexists.
  - apply Nat.ltb_ge in Hp. split; [intros _; left; lia | intros _; by eexists].
Qed.

Lemma UpdateStates_total w c :
  controlPublishers w = 0%nat ∨ (3 ≤ length (joints_ c))%nat →
  ∃ c' evs, UpdateStates w c = Some (tt, c', evs).
Proof.
  intros H. apply UpdateStates_is_Some in H. destruct H as [[[[] c'] evs] H].
  by exists c', evs.
Qed.

(** ** C1: the mixing law *)

(** C1.  [CalculateJoints] takes the pitch and roll errors as current minus
    target and commands slot 0 with the throttle unchanged, slot 1 with
    pitch error minus roll error and slot 2 with pitch error plus roll
    error, in that order; a tick with an active command producer issues
    exactly these commands from the stored setpoint; and for throttle 0.5,
    targets (0.1, 0) and attitude (0.3, 0) the three commands are 0.5, 0.2
    and 0.2. *)
Theorem CalculateJoints_mixing_law w throttle pitchTarget rollTarget dt c j0 j1 j2 rest :
  joints_ c = j0 :: j1 :: j2 :: rest →
  let currentPitch := Vector3.x (Euler (Rot (WorldPose w))) in
  let currentRoll := Vector3.y (Euler (Rot (WorldPose w))) in
  let pitchError := currentPitch - pitchTarget in
  let rollError := currentRoll - rollTarget in
  let propellerCmd := throttle in
  let leftCmd := pitchError - rollError in
  let rightCmd := pitchError + rollError in
  let r0 := JointControl.SetCommand j0 propellerCmd dt in
  let r1 := JointControl.SetCommand j1 leftCmd dt in
  let r2 := JointControl.SetCommand j2 rightCmd dt in
  CalculateJoints w throttle pitchTarget rollTarget dt c
    = Some (tt, set_joints_ (r0.1 :: r1.1 :: r2.1 :: rest) c, r0.2 ++ r1.2 ++ r2.2)
  ∧ ((0 < controlPublishers w)%nat →
     (throttle, pitchTarget, rollTarget) = (targetThrottle c, targetPitch c, targetRoll c) →
     dt = (if Qeq_bool (lastUpdateTime c) 0 then 0 else SimTime w - lastUpdateTime c) →
     ∃ c' evs, UpdateStates w c = Some (tt, c', evs)
       ∧ joints_ c' = r0.1 :: r1.1 :: r2.1 :: rest
       ∧ filter isActuatorCommand evs = r0.2 ++ r1.2 ++ r2.2)
  ∧ (throttle == 0.5 → pitchTarget == 0.1 → rollTarget == 0 →
     currentPitch == 0.3 → currentRoll == 0 →
     propellerCmd == 0.5 ∧ leftCmd == 0.2 ∧ rightCmd == 0.2).
Proof.
  intros Hj. cbv zeta.
  pose proof (CalculateJoints_three w throttle pitchTarget rollTarget dt c _ _ _ _ Hj)
    as HC. cbv zeta in HC.
  split; [exact HC|]. split.
  - intros Hpub [= -> -> ->] Hdt.
    destruct (UpdateStates_total w c) as (c' & evs & HU);
      [right; rewrite Hj; simpl; lia|].
    exists c', evs. split; [done|].
    destruct (UpdateStates_inv _ _ _ _ _ HU) as (_ & _ & _ & _ & HJ).
    apply Nat.ltb_lt in Hpub. rewrite Hpub in HJ.
    destruct HJ as (cj & HJ & Hjs). unfold tick_dt in HJ. rewrite <- Hdt in HJ.
    rewrite HC in HJ. injection HJ as <- <-. done.
  - intros Ht Hp Hr Hcp Hcr. rewrite Ht, Hp, Hr, Hcp, Hcr. repeat split; reflexivity.
Qed.

Lemma CalculateJoints_mixing_law_witness :
  joints_ sample_controller
    = sample_joint "propeller" :: sample_joint "left" :: sample_joint "right" :: []
  ∧ ∃ j0 j1 j2 propellerCmd leftCmd rightCmd,
      CalculateJoints sample_world 0.5 0.1 0 0 sample_controller
        = Some (tt, set_joints_ [j0; j1; j2] sample_controller,
                [ActuatorCommand "propeller" propellerCmd;
                 ActuatorCommand "left" leftCmd;
                 ActuatorCommand "right" rightCmd])
      ∧ propellerCmd == 0.5 ∧ leftCmd == 0.2 ∧ rightCmd == 0.2.
Proof.
  split; [reflexivity|].
  eexists _, _, _, _, _, _. split.
  - exact (proj1 (CalculateJoints_mixing_law sample_world 0.5 0.1 0 0 sample_controller
                    _ _ _ [] eq_refl)).
  - repeat split; reflexivity.
Defined.

(** ** C2, C3: the regulator *)

Lemma clamp_bounds x lo hi : lo <= hi → lo <= PID.clamp x lo hi <= hi.
Proof.
  intros H. unfold PID.clamp.
  destruct (Qlt_bool x lo) eqn:E1; [lra|].
  destruct (Qlt_bool hi x) eqn:E2; [lra|].
  apply Qlt_bool_false in E1, E2. lra.
Qed.

Lemma compute_sameParams r target measured dt :
  sameParams r (PID.compute r target measured dt).2.
Proof.
  unfold PID.compute, sameParams. cbv zeta. by destruct (Qle_bool dt 0).
Qed.

Lemma compute_withinLimits r target measured dt :
  PID.integralMin r <= PID.accumulatedIntegral r <= PID.integralMax r →
  PID.outputMin r <= PID.outputMax r →
  withinLimits r (PID.compute r target measured dt).
Proof.
  intros Hi Ho. unfold withinLimits, PID.compute. cbv zeta.
  destruct (Qle_bool dt 0); simpl.
  - split; [exact Hi | by apply clamp_bounds].
  - split; apply clamp_bounds; [lra | exact Ho].
Qed.

(** C2.  Starting from a regulator whose integral lies within its integral
    limits and whose output limits are ordered, after any sequence of calls
    to the compute step, with any targets, measurements and elapsed times,
    every state left behind has its accumulated integral within
    [integralMin, integralMax] and every returned output lies within
    [outputMin, outputMax]; the limits themselves never change. *)
Theorem PID_limits_invariant (r : PID.t) (calls : list PID.Call) :
  PID.integralMin r <= PID.accumulatedIntegral r <= PID.integralMax r →
  PID.outputMin r <= PID.outputMax r →
  length (PID.run r calls).2 = length calls
  ∧ Forall (λ o, withinLimits r o ∧ sameParams r o.2) (PID.run r calls).2
  ∧ PID.integralMin r <= PID.accumulatedIntegral (PID.run r calls).1 <= PID.integralMax r
  ∧ sameParams r (PID.run r calls).1.
Proof.
  revert r. induction calls as [|[[target measured] dt] rest IH]; intros r Hi Ho.
  - simpl. repeat split; try done; apply Hi.
  - simpl.
    pose proof (compute_sameParams r target measured dt) as Hs.
    pose proof (compute_withinLimits r target measured dt Hi Ho) as Hw.
    destruct (PID.compute r target measured dt) as [out r1]. simpl in Hs, Hw.
    destruct Hs as (Hp & Hii & Hd & Him & HiM & Hom & HoM).
    destruct Hw as [Hw1 Hw2]. simpl in Hw1, Hw2.
    destruct (IH r1) as (Hlen & Hall & Hfin & Hsp).
    { rewrite Him, HiM. exact Hw1. }
    { rewrite Hom, HoM. exact Ho. }
    destruct (PID.run r1 rest) as [r2 outs]. simpl in *.
    split; [by rewrite Hlen|]. split; [|split].
    + constructor.
      * split; [split; [exact Hw1 | exact Hw2] | done].
      * eapply Forall_impl; [exact Hall|].
        intros o [[Ha Hb] Hc]. unfold withinLimits, sameParams in *.
        rewrite <- Him, <- HiM, <- Hom, <- HoM.
        split; [done|]. destruct Hc as (? & ? & ? & ? & ? & ? & ?).
        repeat split; congruence.
    + by rewrite <- Him, <- HiM.
    + unfold sameParams in *. destruct Hsp as (? & ? & ? & ? & ? & ? & ?).
      repeat split; congruence.
Qed.

Lemma PID_limits_invariant_witness :
  (PID.integralMin sample_pid <= PID.accumulatedIntegral sample_pid
     <= PID.integralMax sample_pid)
  ∧ PID.outputMin sample_pid <= PID.outputMax sample_pid
  ∧ Forall (λ o, withinLimits sample_pid o ∧ sameParams sample_pid o.2)
      (PID.run sample_pid sample_calls).2.
Proof.
  assert (H1 : PID.integralMin sample_pid <= PID.accumulatedIntegral sample_pid
                 <= PID.integralMax sample_pid) by (split; discriminate).
  assert (H2 : PID.outputMin sample_pid <= PID.outputMax sample_pid) by discriminate.
  split; [exact H1|]. split; [exact H2|].
  exact (proj1 (proj2 (PID_limits_invariant sample_pid sample_calls H1 H2))).
Defined.

(** C3.  With no elapsed time the compute step returns
    [clamp (p * error) outputMin outputMax] for [error = target - measured],
    leaves the accumulated integral untouched, and its output does not
    depend on the integral and derivative gains, on the accumulated
    integral or on the previous error. *)
Theorem PID_compute_dt_zero (r : PID.t) (target measured dt : Q) :
  dt == 0 →
  let error := target - measured in
  (PID.compute r target measured dt).1
    = PID.clamp (PID.p r * error) (PID.outputMin r) (PID.outputMax r)
  ∧ PID.accumulatedIntegral (PID.compute r target measured dt).2
    = PID.accumulatedIntegral r
  ∧ ∀ i' d' imin' imax' integral' previous',
      (PID.compute (PID.mk (PID.p r) i' d' imin' imax' (PID.outputMin r)
                      (PID.outputMax r) integral' previous') target measured dt).1
      = (PID.compute r target measured dt).1.
Proof.
  intros Hdt. cbv zeta. unfold PID.compute. cbv zeta.
  assert (E : Qle_bool dt 0 = true) by (apply Qle_bool_iff; lra).
  rewrite E. simpl. done.
Qed.

Lemma PID_compute_dt_zero_witness :
  0 == 0
  ∧ (PID.compute sample_pid 100 (-5) 0).1 = PID.clamp (1 * (100 - -5)) (-10) 10.
Proof.
  split; [reflexivity|].
  exact (proj1 (PID_compute_dt_zero sample_pid 100 (-5) 0 (Qeq_refl 0))).
Defined.

(** ** Loading *)

Lemma SetPIDParams_fields jc e :
  JointControl.jointName (SetPIDParams jc e) = JointControl.jointName jc
  ∧ JointControl.jointType (SetPIDParams jc e) = JointControl.jointType jc
  ∧ JointControl.joint (SetPIDParams jc e) = JointControl.joint jc.
Proof. unfold SetPIDParams. by destruct (HasElement e "p"). Qed.

Lemma LoadJoint_spec decode host e c :
  LoadJoint decode host e c
    = Some (tt, set_joints_ (joints_ c ++ [bindingOf decode host e]) c, loadLog host e).
Proof.
  unfold LoadJoint, bindingOf, loadLog, GetJoint. cbv zeta. simpl.
  destruct (bool_decide (sdf_name e ∈ modelJoints host)); reflexivity.
Qed.

Lemma LoadJoints_spec decode host es c :
  LoadJoints decode host es c
    = Some (tt, set_joints_ (joints_ c ++ map (bindingOf decode host) es) c,
            concat (map (loadLog host) es)).
Proof.
  revert c. induction es as [|e es IH]; intros c.
  - simpl. rewrite app_nil_r. by destruct c.
  - simpl. unfold bind. rewrite LoadJoint_spec, IH. simpl.
    by rewrite <- app_assoc.
Qed.

Lemma Load_spec decode host _sdf c :
  Load decode host _sdf c
    = Some (rosInitialized host,
            set_joints_ (joints_ c ++ map (bindingOf decode host) (joint_control _sdf))
              (set_poseUpdateRate (sdf_poseUpdateRate _sdf) c),
            concat (map (loadLog host) (joint_control _sdf))
              ++ (if rosInitialized host then [] else [LogFatal])).
Proof.
  unfold Load, bind at 1. simpl. unfold bind at 1. rewrite LoadJoints_spec.
  destruct (rosInitialized host); reflexivity.
Qed.

(** ** C4: the first tick *)

(** C4.  A newly constructed controller has the sentinel 0 in
    [lastUpdateTime], and loading leaves it there.  On any controller whose
    [lastUpdateTime] is still 0, a tick with an active command producer runs
    [CalculateJoints] on the stored setpoint with elapsed time 0, whatever
    the simulation time is, and then stores the simulation time in
    [lastUpdateTime]. *)
Theorem first_tick_dt_zero (w : World) (c : ZephyrController) :
  lastUpdateTime c == 0 →
  (3 ≤ length (joints_ c))%nat →
  (0 < controlPublishers w)%nat →
  (lastUpdateTime ZephyrController_new = 0
   ∧ ∀ decode host _sdf started c0 log,
       Load decode host _sdf ZephyrController_new = Some (started, c0, log) →
       lastUpdateTime c0 = 0)
  ∧ ∃ c' evs cj,
      UpdateStates w c = Some (tt, c', evs)
      ∧ CalculateJoints w (targetThrottle c) (targetPitch c) (targetRoll c) 0 c
          = Some (tt, cj, filter isActuatorCommand evs)
      ∧ joints_ c' = joints_ cj
      ∧ lastUpdateTime c' = SimTime w.
Proof.
  intros H0 H3 Hp. split.
  - split; [reflexivity|]. intros decode host _sdf started c0 log.
    rewrite Load_spec. by intros [= _ <- _].
  - destruct (UpdateStates_total w c) as (c' & evs & HU); [by right|].
    destruct (UpdateStates_inv _ _ _ _ _ HU) as (Ht & _ & _ & _ & HJ).
    apply Nat.ltb_lt in Hp. rewrite Hp in HJ. destruct HJ as (cj & HJ & Hjs).
    unfold tick_dt in HJ.
    assert (E : Qeq_bool (lastUpdateTime c) 0 = true) by by apply Qeq_bool_iff.
    rewrite E in HJ. by exists c', evs, cj.
Qed.

Lemma first_tick_dt_zero_witness :
  lastUpdateTime sample_controller == 0
  ∧ (3 ≤ length (joints_ sample_controller))%nat
  ∧ (0 < controlPublishers sample_world)%nat
  ∧ ¬ SimTime sample_world - lastUpdateTime sample_controller == 0
  ∧ ∃ c' evs cj,
      UpdateStates sample_world sample_controller = Some (tt, c', evs)
      ∧ CalculateJoints sample_world 0.5 0.1 0 0 sample_controller
          = Some (tt, cj, filter isActuatorCommand evs)
      ∧ joints_ c' = joints_ cj
      ∧ lastUpdateTime c' = 0.5.
Proof.
  assert (H0 : lastUpdateTime sample_controller == 0) by reflexivity.
  assert (H3 : (3 ≤ length (joints_ sample_controller))%nat) by (simpl; lia).
  assert (Hp : (0 < controlPublishers sample_world)%nat) by (simpl; lia).
  split; [exact H0|]. split; [exact H3|]. split; [exact Hp|].
  split; [discriminate|].
  exact (proj2 (first_tick_dt_zero sample_world sample_controller H0 H3 Hp)).
Defined.

(** ** C5: pose emission *)

Lemma poseDue_iff w c :
  poseDue w c = true
  ↔ (0 < poseSubscribers w)%nat
    ∧ inject_Z (poseUpdateRate c)
      < elapsedMilliseconds (SimTime w) (lastPosePublishTime c).
Proof.
  unfold poseDue. rewrite andb_true_iff, Nat.ltb_lt, Qlt_bool_iff. done.
Qed.




(** With the interval at 100 ms and ticks 10 ms apart, the first pose goes
    out on the eleventh tick and a second of simulation sees nine of them:
    the rate is bounded by the interval, not by the tick. *)
Example pose_rate_limit_sample :
  posesOf (run (map tick_at (seq 1 10)) sample_controller) = 0%nat
  ∧ posesOf (run (map tick_at (seq 1 11)) sample_controller) = 1%nat
  ∧ posesOf (run (map tick_at (seq 1 100)) sample_controller) = 9%nat.
Proof. repeat split; vm_compute; reflexivity. Qed.

(** ** C6: the update timestamp *)

(** C6.  A tick that does not index past the joint list completes and
    leaves the simulation time in [lastUpdateTime]; this includes the tick
    on which the command topic has no publisher, where no joint is
    commanded and the bindings are left as they were. *)
Theorem lastUpdateTime_every_tick (w : World) (c : ZephyrController) :
  controlPublishers w = 0%nat ∨ (3 ≤ length (joints_ c))%nat →
  ∃ c' evs,
    UpdateStates w c = Some (tt, c', evs)
    ∧ lastUpdateTime c' = SimTime w
    ∧ (controlPublishers w = 0%nat →
       joints_ c' = joints_ c ∧ filter isActuatorCommand evs = []).
Proof.
  intros H. destruct (UpdateStates_total w c H) as (c' & evs & HU).
  exists c', evs. split; [exact HU|].
  destruct (UpdateStates_inv _ _ _ _ _ HU) as (Ht & _ & _ & _ & HJ).
  split; [exact Ht|]. intros H0. by rewrite H0 in HJ.
Qed.

Lemma lastUpdateTime_every_tick_witness :
  (controlPublishers sample_world_idle = 0%nat
   ∨ (3 ≤ length (joints_ ZephyrController_new))%nat)
  ∧ ∃ c' evs,
      UpdateStates sample_world_idle ZephyrController_new = Some (tt, c', evs)
      ∧ lastUpdateTime c' = 0.5
      ∧ (controlPublishers sample_world_idle = 0%nat →
         joints_ c' = [] ∧ filter isActuatorCommand evs = []).
Proof.
  split; [by left|].
  exact (lastUpdateTime_every_tick sample_world_idle ZephyrController_new
           (or_introl eq_refl)).
Defined.

(** ** C9: indexing the joint list *)

Lemma UpdateStates_None w c :
  (0 < controlPublishers w)%nat → (length (joints_ c) < 3)%nat →
  UpdateStates w c = None.
Proof.
  intros Hp Hlt. destruct (UpdateStates w c) as [r|] eqn:E; [|done].
  assert (Hs : is_Some (UpdateStates w c)) by (rewrite E; by eexists).
  apply UpdateStates_is_Some in Hs. lia.
Qed.

(** C9.  [CalculateJoints] is free of out-of-range access exactly when
    [joints_] holds at least three bindings; so is a tick on which the
    command topic has a publisher; and loading a new controller produces
    one binding per [joint_control] element, so a configuration with fewer
    than three elements makes every such tick index past the end. *)
Theorem joint_indexing_needs_three :
  (∀ w throttle pitch roll dt c,
     is_Some (CalculateJoints w throttle pitch roll dt c)
     ↔ (3 ≤ length (joints_ c))%nat)
  ∧ (∀ w c, (0 < controlPublishers w)%nat →
       (is_Some (UpdateStates w c) ↔ (3 ≤ length (joints_ c))%nat))
  ∧ (∀ decode host _sdf, ∃ started c log,
       Load decode host _sdf ZephyrController_new = Some (started, c, log)
       ∧ length (joints_ c) = length (joint_control _sdf)
       ∧ ∀ w, (0 < controlPublishers w)%nat →
              (length (joint_control _sdf) < 3)%nat → UpdateStates w c = None).
Proof.
  split; [|split].
  - intros w throttle pitch roll dt c. split.
    + intros [[[u c'] evs] H]. by destruct (CalculateJoints_inv _ _ _ _ _ _ _ _ _ H).
    + intros H. destruct (list_three _ H) as (j0 & j1 & j2 & rest & Hj).
      rewrite (CalculateJoints_three _ _ _ _ _ _ _ _ _ _ Hj). cbv zeta. by eexists.
  - intros w c Hp. rewrite UpdateStates_is_Some. split; [intros [?|?]; [lia | done] | by right].
  - intros decode host _sdf. eexists _, _, _. split; [apply Load_spec|].
    simpl. rewrite length_map. split; [done|].
    intros w Hp Hlt. apply UpdateStates_None; [exact Hp|].
    simpl. rewrite length_map. exact Hlt.
Qed.

Lemma joint_indexing_needs_three_witness :
  (0 < controlPublishers sample_world)%nat
  ∧ ∃ started c log,
      Load sample_decode sample_host sample_sdf_short ZephyrController_new
        = Some (started, c, log)
      ∧ length (joints_ c) = 2%nat
      ∧ UpdateStates sample_world c = None.
Proof.
  assert (Hp : (0 < controlPublishers sample_world)%nat) by (simpl; lia).
  split; [exact Hp|].
  destruct (proj2 (proj2 joint_indexing_needs_three)
              sample_decode sample_host sample_sdf_short)
    as (started & c & log & HL & Hlen & Hno).
  exists started, c, log. split; [exact HL|]. split; [exact Hlen|].
  apply Hno; [exact Hp | simpl; lia].
Defined.

(** ** C7: a joint the host does not know *)

Lemma SetPIDParams_pid jc jc' e :
  JointControl.pid jc = JointControl.pid jc' →
  JointControl.pid (SetPIDParams jc e) = JointControl.pid (SetPIDParams jc' e).
Proof.
  intros H. unfold SetPIDParams, JointControl.SetPIDParams.
  destruct (HasElement e "p"); simpl; by rewrite H.
Qed.

Lemma loadLog_elem host es e x :
  e ∈ es → x ∈ loadLog host e → x ∈ concat (map (loadLog host) es).
Proof.
  intros He Hx. induction He as [e es | e e' es He IH]; simpl; apply elem_of_app; auto.
Qed.

(** C7.  Loading never aborts on an unknown joint name: it completes, and
    whether the plugin starts depends on the ROS node alone.  It creates one
    binding per element, the binding of element [k] in slot [k], with that
    element's name, kind and gains, whatever happened to the other
    elements.  A binding whose name the host knows holds that joint and
    every command to it reaches the joint as one actuator command carrying
    its regulator's output; a binding whose name the host does not know is
    reported in the log, holds no joint, and a command to it changes
    nothing and has no effect.  With three elements, a tick with a command
    producer completes and hands the throttle to the binding of the first
    element, pitch error minus roll error to that of the second and pitch
    error plus roll error to that of the third, whichever of them
    resolved. *)
Theorem unresolved_joint_keeps_slot decode (host : Host) (_sdf : Sdf) :
  ∃ c log,
    Load decode host _sdf ZephyrController_new = Some (rosInitialized host, c, log)
    ∧ length (joints_ c) = length (joint_control _sdf)
    ∧ (∀ k e, joint_control _sdf !! k = Some e →
         ∃ j, joints_ c !! k = Some j
           ∧ JointControl.jointName j = sdf_name e
           ∧ JointControl.jointType j = decode (sdf_type e)
           ∧ JointControl.pid j = JointControl.pid (SetPIDParams JointControl.new e)
           ∧ (sdf_name e ∈ modelJoints host →
                JointControl.joint j = Some (sdf_name e)
                ∧ ∀ target dt,
                    (JointControl.SetCommand j target dt).2
                    = [ActuatorCommand (sdf_name e)
                         (PID.compute (JointControl.pid j) target 0 dt).1])
           ∧ (sdf_name e ∉ modelJoints host →
                JointControl.joint j = None
                ∧ LogError ("cannot get joint with name:" +:+ sdf_name e +:+ endl)
                    ∈ log
                ∧ ∀ target dt, JointControl.SetCommand j target dt = (j, [])))
    ∧ (∀ e0 e1 e2 w,
         joint_control _sdf = [e0; e1; e2] → (0 < controlPublishers w)%nat →
         ∃ j0 j1 j2 c' evs,
           joints_ c = [j0; j1; j2]
           ∧ (JointControl.jointName j0, JointControl.jointName j1,
              JointControl.jointName j2) = (sdf_name e0, sdf_name e1, sdf_name e2)
           ∧ UpdateStates w c = Some (tt, c', evs)
           ∧ let pitchError := Vector3.x (Euler (Rot (WorldPose w))) - targetPitch c in
             let rollError := Vector3.y (Euler (Rot (WorldPose w))) - targetRoll c in
             let r0 := JointControl.SetCommand j0 (targetThrottle c) 0 in
             let r1 := JointControl.SetCommand j1 (pitchError - rollError) 0 in
             let r2 := JointControl.SetCommand j2 (pitchError + rollError) 0 in
             joints_ c' = [r0.1; r1.1; r2.1]
             ∧ filter isActuatorCommand evs = r0.2 ++ r1.2 ++ r2.2).
Proof.
  eexists _, _. split; [apply Load_spec|]. simpl.
  split; [by rewrite length_map|]. split.
  - intros k e Hk. exists (bindingOf decode host e).
    split; [by rewrite list_lookup_fmap, Hk|].
    destruct (SetPIDParams_fields
                (JointControl.mk (sdf_name e) (decode (sdf_type e))
                   (GetJoint host (sdf_name e)) PID.default) e) as (Hn & Ht & Hj).
    unfold bindingOf. rewrite Hn, Ht. simpl.
    split; [done|]. split; [done|]. split; [by apply SetPIDParams_pid|].
    split.
    + intros Hin.
      assert (HJ : JointControl.joint (SetPIDParams
                (JointControl.mk (sdf_name e) (decode (sdf_type e))
                   (GetJoint host (sdf_name e)) PID.default) e) = Some (sdf_name e)).
      { rewrite Hj. simpl. unfold GetJoint. by rewrite bool_decide_eq_true_2. }
      split; [exact HJ|]. intros target dt.
      unfold JointControl.SetCommand. rewrite HJ.
      by destruct (PID.compute _ _ _ _).
    + intros Hnin.
      assert (HJ : JointControl.joint (SetPIDParams
                (JointControl.mk (sdf_name e) (decode (sdf_type e))
                   (GetJoint host (sdf_name e)) PID.default) e) = None).
      { rewrite Hj. simpl. unfold GetJoint. by rewrite bool_decide_eq_false_2. }
      split; [exact HJ|]. split.
      * apply elem_of_app. left. apply loadLog_elem with e.
        -- by apply list_elem_of_lookup_2 with k.
        -- unfold loadLog. rewrite bool_decide_eq_false_2 by done. by left.
      * intros target dt. unfold JointControl.SetCommand. by rewrite HJ.
  - intros e0 e1 e2 w He Hp. rewrite He. simpl.
    set (c := set_joints_ _ _).
    exists (bindingOf decode host e0), (bindingOf decode host e1),
      (bindingOf decode host e2).
    destruct (UpdateStates_total w c) as (c' & evs & HU); [right; simpl; lia|].
    exists c', evs. split; [done|]. split.
    { unfold bindingOf.
      by rewrite !(proj1 (SetPIDParams_fields _ _)). }
    split; [exact HU|].
    destruct (UpdateStates_inv _ _ _ _ _ HU) as (_ & _ & _ & _ & HJ).
    apply Nat.ltb_lt in Hp. rewrite Hp in HJ. destruct HJ as (cj & HJ & Hjs).
    rewrite (CalculateJoints_three _ _ _ _ _ c _ _ _ [] eq_refl) in HJ.
    cbv zeta in HJ. injection HJ as <- <-. split; [exact Hjs | done].
Qed.

Lemma unresolved_joint_keeps_slot_witness :
  ∃ c log j0 j1 j2 c' evs propellerCmd rightCmd,
    Load sample_decode sample_host sample_sdf ZephyrController_new = Some (true, c, log)
    ∧ joints_ c = [j0; j1; j2]
    ∧ JointControl.joint j0 = Some "propeller_joint"
    ∧ JointControl.joint j1 = None
    ∧ JointControl.joint j2 = Some "flap_right_joint"
    ∧ log = [LogError ("cannot get joint with name:flap_left_joint" +:+ endl)]
    ∧ UpdateStates sample_world c = Some (tt, c', evs)
    ∧ filter isActuatorCommand evs
      = [ActuatorCommand "propeller_joint" propellerCmd;
         ActuatorCommand "flap_right_joint" rightCmd].
Proof.
  destruct (unresolved_joint_keeps_slot sample_decode sample_host sample_sdf)
    as (c & log & HL & _ & _ & Htick).
  destruct (Htick _ _ _ sample_world eq_refl ltac:(simpl; lia))
    as (j0 & j1 & j2 & c' & evs & Hj & _ & HU & _ & Hev).
  vm_compute in HL. injection HL as <- <-.
  injection Hj as <- <- <-.
  eexists _, _, _, _, _, c', evs, _, _. split; [reflexivity|].
  split; [reflexivity|]. split; [reflexivity|]. split; [reflexivity|].
  split; [reflexivity|]. split; [reflexivity|].
  split; [exact HU|]. exact Hev.
Defined.

(** ** C8: a joint without gains *)

Lemma HasElement_false e k : HasElement e k = false ↔ reals e !! k = None.
Proof.
  unfold HasElement. rewrite bool_decide_eq_false, <- eq_None_not_Some. done.
Qed.

Lemma HasElement_true e k : HasElement e k = true ↔ is_Some (reals e !! k).
Proof. unfold HasElement. apply bool_decide_eq_true. Qed.

Lemma PID_default_inert target measured dt :
  (PID.compute PID.default target measured dt).1 == 0.
Proof.
  pose proof (compute_withinLimits PID.default target measured dt) as H.
  unfold withinLimits in H. simpl in H.
  destruct H as [_ H]; [split; discriminate | discriminate |]. lra.
Qed.

(** C8.  Creating the binding for one element always completes and logs
    nothing when the host knows the joint, gains or no gains.  Without a
    ["p"] child the controller's [SetPIDParams] returns the binding as it
    was, so the new binding keeps the default regulator: zero gains, and an
    output of zero for every command.  With a ["p"] child the gains and
    limits are those read from the element. *)
Theorem binding_without_gains decode (host : Host) (e : JointControlSDF)
    (c : ZephyrController) :
  ∃ j log,
    LoadJoint decode host e c = Some (tt, set_joints_ (joints_ c ++ [j]) c, log)
    ∧ (sdf_name e ∈ modelJoints host → log = [])
    ∧ (reals e !! "p" = None →
         (∀ jc, SetPIDParams jc e = jc)
         ∧ JointControl.pid j = PID.default
         ∧ (PID.p (JointControl.pid j) = 0 ∧ PID.i (JointControl.pid j) = 0
            ∧ PID.d (JointControl.pid j) = 0)
         ∧ ∀ target measured dt,
             (PID.compute (JointControl.pid j) target measured dt).1 == 0)
    ∧ (is_Some (reals e !! "p") →
         JointControl.pid j
         = PID.mk (GetDouble e "p") (GetDouble e "i") (GetDouble e "d")
             (GetDouble e "imin") (GetDouble e "imax")
             (GetDouble e "cmdmin") (GetDouble e "cmdmax") 0 0).
Proof.
  exists (bindingOf decode host e), (loadLog host e).
  split; [apply LoadJoint_spec|]. split; [|split].
  - intros Hin. unfold loadLog. by rewrite bool_decide_eq_true_2.
  - intros Hp. apply HasElement_false in Hp.
    assert (Hid : ∀ jc, SetPIDParams jc e = jc)
      by (intros jc; unfold SetPIDParams; by rewrite Hp).
    split; [exact Hid|]. unfold bindingOf. rewrite Hid. simpl.
    split; [done|]. split; [done|]. apply PID_default_inert.
  - intros Hp. apply HasElement_true in Hp.
    unfold bindingOf, SetPIDParams. rewrite Hp. reflexivity.
Qed.

Lemma binding_without_gains_witness :
  ∃ j,
    LoadJoint sample_decode sample_host
      {| sdf_name := "flap_right_joint"; sdf_type := "flap_right"; reals := ∅ |}
      ZephyrController_new
    = Some (tt, set_joints_ [j] ZephyrController_new, [])
    ∧ JointControl.pid j = PID.default.
Proof.
  destruct (binding_without_gains sample_decode sample_host
              {| sdf_name := "flap_right_joint"; sdf_type := "flap_right"; reals := ∅ |}
              ZephyrController_new) as (j & log & HL & Hlog & Hnone & _).
  assert (Hin : "flap_right_joint" ∈ modelJoints sample_host)
    by apply list_elem_of_further, list_elem_of_here.
  exists j. rewrite (Hlog Hin) in HL.
  split; [exact HL|]. apply Hnone. reflexivity.
Defined.

(** ** C10: the command handler *)

Lemma SetControl_spec m c :
  SetControl m c
  = Some (tt, mkController (lastUpdateTime c) (lastPosePublishTime c)
                (Vector3.x (linear m)) (Vector3.y (angular m)) (Vector3.x (angular m))
                (poseUpdateRate c) (joints_ c), []).
Proof. reflexivity. Qed.

Lemma run_setpoint acts c c' evs :
  run acts c = Some (tt, c', evs) →
  setpoint c' = match lastCommand acts with
                | Some m => setpointOf m
                | None => setpoint c
                end.
Proof.
  revert c evs. induction acts as [|a rest IH]; intros c evs H.
  - injection H as <- _. reflexivity.
  - simpl in H. apply bind_inv in H. destruct H as ([] & c1 & e1 & e2 & Ha & Hr & _).
    rewrite (IH _ _ Hr). simpl. destruct (lastCommand rest); [done|].
    destruct a as [w | m]; simpl in Ha.
    + destruct (UpdateStates_inv _ _ _ _ _ Ha) as (_ & _ & _ & Hs & _).
      unfold setpoint. congruence.
    + rewrite SetControl_spec in Ha. injection Ha as <- _. reflexivity.
Qed.

(** C10.  [SetControl] always completes, without any outside effect; it
    stores the message's [linear.x], [angular.y] and [angular.x] as target
    throttle, pitch and roll and leaves both timestamps, the pose interval
    and the joint bindings with their regulators as they were.  A second
    message overwrites the first entirely, so a tick after two messages
    behaves as after the second alone and hands the second message's three
    values to [CalculateJoints]; and after any run of whole handler
    executions the stored setpoint is that of the last message of the run,
    all three values together, or the initial one if no message came. *)
Theorem SetControl_frame (m : Twist) (c : ZephyrController) :
  ∃ c',
    SetControl m c = Some (tt, c', [])
    ∧ (targetThrottle c' = Vector3.x (linear m)
       ∧ targetPitch c' = Vector3.y (angular m)
       ∧ targetRoll c' = Vector3.x (angular m))
    ∧ (lastUpdateTime c' = lastUpdateTime c
       ∧ lastPosePublishTime c' = lastPosePublishTime c
       ∧ poseUpdateRate c' = poseUpdateRate c
       ∧ joints_ c' = joints_ c)
    ∧ (∀ m0 w,
         (SetControl m0 ;; SetControl m ;; UpdateStates w) c
         = (SetControl m ;; UpdateStates w) c)
    ∧ (∀ m0 w, (0 < controlPublishers w)%nat → (3 ≤ length (joints_ c))%nat →
         ∃ c2 evs dt cj,
           run [Command m0; Command m; Tick w] c = Some (tt, c2, evs)
           ∧ CalculateJoints w (Vector3.x (linear m)) (Vector3.y (angular m))
               (Vector3.x (angular m)) dt c'
             = Some (tt, cj, filter isActuatorCommand evs)
           ∧ joints_ c2 = joints_ cj)
    ∧ (∀ acts cN evs,
         run acts c = Some (tt, cN, evs) →
         setpoint cN = match lastCommand acts with
                       | Some m' => setpointOf m'
                       | None => setpoint c
                       end).
Proof.
  eexists. split; [apply SetControl_spec|]. simpl.
  split; [done|]. split; [done|]. split; [|split].
  - intros m0 w. unfold bind.
    rewrite (SetControl_spec m0 c), (SetControl_spec m c). cbv iota beta.
    rewrite SetControl_spec. simpl.
    by destruct (UpdateStates w _) as [[[[] c2] e2]|].
  - intros m0 w Hp H3.
    set (c' := mkController (lastUpdateTime c) (lastPosePublishTime c)
                 (Vector3.x (linear m)) (Vector3.y (angular m)) (Vector3.x (angular m))
                 (poseUpdateRate c) (joints_ c)).
    destruct (UpdateStates_total w c') as (c2 & evs & HU); [by right|].
    destruct (UpdateStates_inv _ _ _ _ _ HU) as (_ & _ & _ & _ & HJ).
    apply Nat.ltb_lt in Hp. rewrite Hp in HJ. destruct HJ as (cj & HJ & Hjs).
    exists c2, evs, (tick_dt w c'), cj. split; [|by split].
    simpl. unfold bind. rewrite (SetControl_spec m0 c). cbv iota beta.
    rewrite SetControl_spec. simpl. fold c'. rewrite HU.
    simpl. by rewrite app_nil_r.
  - intros acts cN evs. apply run_setpoint.
Qed.

Lemma SetControl_frame_witness :
  ∃ c2 evs,
    run [Command (sample_twist 1 1 1); Command (sample_twist 0.5 0.1 0);
         Tick sample_world] sample_controller
    = Some (tt, c2, evs)
    ∧ setpoint c2 = (0.5, 0.1, 0)
    ∧ UpdateStates sample_world sample_controller = Some (tt, c2, evs).
Proof.
  destruct (SetControl_frame (sample_twist 0.5 0.1 0) sample_controller)
    as (c' & _ & _ & _ & _ & _ & Hrun).
  eexists _, _. split; [reflexivity|]. split; [|reflexivity].
  refine (Hrun [Command (sample_twist 1 1 1); Command (sample_twist 0.5 0.1 0);
                Tick sample_world] _ _ eq_refl).
Defined.

(** * Further properties of the code *)

(** ** Runs never leave the joint list's shape *)

Lemma CalculateJoints_joints w tT tP tR dt c u cj evs :
  CalculateJoints w tT tP tR dt c = Some (u, cj, evs) →
  length (joints_ cj) = length (joints_ c)
  ∧ drop 3 (joints_ cj) = drop 3 (joints_ c).
Proof.
  intros H.
  destruct (CalculateJoints_inv _ _ _ _ _ _ _ _ _ H) as (H3 & _ & Hlen & _).
  split; [exact Hlen|].
  destruct (list_three _ H3) as (j0 & j1 & j2 & rest & Hj).
  rewrite (CalculateJoints_three _ _ _ _ _ _ _ _ _ _ Hj) in H. cbv zeta in H.
  injection H as _ <- _. by rewrite Hj.
Qed.

Lemma step_keeps a c u c' evs :
  step a c = Some (u, c', evs) →
  length (joints_ c') = length (joints_ c)
  ∧ drop 3 (joints_ c') = drop 3 (joints_ c)
  ∧ poseUpdateRate c' = poseUpdateRate c.
Proof.
  destruct a as [w | m]; simpl.
  - intros HU. destruct (UpdateStates_inv _ _ _ _ _ HU) as (_ & _ & _ & Hs & HJ).
    injection Hs as _ _ _ Hr.
    destruct (0 <? controlPublishers w)%nat.
    + destruct HJ as (cj & HJ & ->).
      destruct (CalculateJoints_joints _ _ _ _ _ _ _ _ _ HJ) as [? ?]. done.
    + destruct HJ as [-> _]. done.
  - rewrite SetControl_spec. by intros [= _ <- _].
Qed.

Lemma step_is_Some a c :
  is_Some (step a c) ↔ (3 ≤ length (joints_ c))%nat ∨ commandsJoints a = false.
Proof.
  destruct a as [w | m]; simpl.
  - rewrite UpdateStates_is_Some, Nat.ltb_ge. lia.
  - rewrite SetControl_spec. split; [by right | by eexists].
Qed.

Lemma run_keeps acts c u c' evs :
  run acts c = Some (u, c', evs) →
  length (joints_ c') = length (joints_ c)
  ∧ drop 3 (joints_ c') = drop 3 (joints_ c)
  ∧ poseUpdateRate c' = poseUpdateRate c.
Proof.
  revert c evs. induction acts as [|a rest IH]; intros c evs H.
  - by injection H as _ <- _.
  - simpl in H. apply bind_inv in H. destruct H as (u1 & c1 & e1 & e2 & Ha & Hr & _).
    destruct (step_keeps _ _ _ _ _ Ha) as (H1 & H2 & H3).
    destruct (IH _ _ Hr) as (H4 & H5 & H6). repeat split; congruence.
Qed.

Lemma run_defined_iff_aux (acts : list Action) (c : ZephyrController) :
  is_Some (run acts c)
  ↔ (3 ≤ length (joints_ c))%nat ∨ Forall (λ a, commandsJoints a = false) acts.
Proof.
  revert c. induction acts as [|a rest IH]; intros c.
  - simpl. split; [intros _; right; constructor | intros _; by eexists].
  - simpl. unfold bind. split.
    + destruct (step a c) as [[[u c1] e1]|] eqn:Ha; [|by intros [? ?]].
      destruct (run rest c1) as [[[u2 c2] e2]|] eqn:Hr; [|by intros [? ?]].
      intros _.
      assert (Hs : is_Some (step a c)) by (rewrite Ha; by eexists).
      apply step_is_Some in Hs.
      assert (Hrs : is_Some (run rest c1)) by (rewrite Hr; by eexists).
      apply IH in Hrs.
      destruct (step_keeps _ _ _ _ _ Ha) as (Hlen & _).
      destruct Hs as [?|Hs]; [by left|].
      destruct Hrs as [?|Hrs]; [left; lia|]. right. by constructor.
    + intros H.
      assert (Hs : is_Some (step a c)).
      { apply step_is_Some. destruct H as [?|H]; [by left|]. right.
        by inversion H. }
      destruct Hs as [[[u c1] e1] Ha]. rewrite Ha.
      destruct (step_keeps _ _ _ _ _ Ha) as (Hlen & _).
      assert (Hrs : is_Some (run rest c1)).
      { apply IH. destruct H as [?|H]; [left; lia|]. right. by inversion H. }
      destruct Hrs as [[[u2 c2] e2] Hr]. rewrite Hr. by eexists.
Qed.

(** X1.  A run of ticks and command messages is free of out-of-range
    access exactly when the controller holds at least three bindings or no
    tick of the run sees a publisher on the command topic; with fewer than
    three bindings the first tick that sees one has no defined outcome. *)
Theorem run_defined_iff (acts : list Action) (c : ZephyrController) :
  (is_Some (run acts c)
   ↔ (3 ≤ length (joints_ c))%nat ∨ Forall (λ a, commandsJoints a = false) acts)
  ∧ ((length (joints_ c) < 3)%nat → Exists (λ a, commandsJoints a = true) acts →
     run acts c = None).
Proof.
  split; [apply run_defined_iff_aux|].
  intros Hlt Hex. destruct (run acts c) as [r|] eqn:Hr; [|done].
  assert (Hs : is_Some (run acts c)) by (rewrite Hr; by eexists).
  apply run_defined_iff_aux in Hs. destruct Hs as [?|Hall]; [lia|].
  apply Exists_exists in Hex. destruct Hex as (a & Hin & Ha).
  rewrite Forall_forall in Hall. specialize (Hall a Hin). congruence.
Qed.

Lemma run_defined_iff_witness :
  is_Some (run sample_run sample_controller)
  ∧ ¬ is_Some (run sample_run ZephyrController_new).
Proof.
  split.
  - apply (proj1 (run_defined_iff sample_run sample_controller)). left. simpl. lia.
  - rewrite (proj2 (run_defined_iff sample_run ZephyrController_new)).
    + by intros [? ?].
    + simpl. lia.
    + right. left. reflexivity.
Defined.

(** X2.  Whatever ticks and messages arrive, a controller with at least
    three bindings goes through them all and afterwards still has the same
    number of bindings, the same pose interval, and every binding past the
    third exactly as it was: joints beyond the first three are never
    commanded. *)
Theorem run_keeps_shape (acts : list Action) (c : ZephyrController) :
  (3 ≤ length (joints_ c))%nat →
  ∃ c' evs,
    run acts c = Some (tt, c', evs)
    ∧ length (joints_ c') = length (joints_ c)
    ∧ drop 3 (joints_ c') = drop 3 (joints_ c)
    ∧ poseUpdateRate c' = poseUpdateRate c.
Proof.
  intros H3.
  assert (Hs : is_Some (run acts c)) by (apply run_defined_iff_aux; by left).
  destruct Hs as [[[[] c'] evs] Hr]. exists c', evs. split; [exact Hr|].
  exact (run_keeps _ _ _ _ _ Hr).
Qed.

Lemma run_keeps_shape_witness :
  (3 ≤ length (joints_ sample_controller4))%nat
  ∧ ∃ c' evs,
      run sample_run sample_controller4 = Some (tt, c', evs)
      ∧ joints_ c' !! 3%nat = Some (sample_joint "spare").
Proof.
  assert (H3 : (3 ≤ length (joints_ sample_controller4))%nat) by (simpl; lia).
  split; [exact H3|].
  destruct (run_keeps_shape sample_run sample_controller4 H3)
    as (c' & evs & Hr & _ & Hd & _).
  exists c', evs. split; [exact Hr|].
  rewrite <- (Nat.add_0_r 3), <- lookup_drop, Hd. reflexivity.
Defined.

(** ** Pose publication over a run *)

Lemma step_pose_quiet a c u c' evs :
  withinInterval (lastPosePublishTime c) (poseUpdateRate c) a →
  step a c = Some (u, c', evs) →
  filter isPublishPose evs = []
  ∧ lastPosePublishTime c' = lastPosePublishTime c.
Proof.
  destruct a as [w | m]; simpl.
  - intros Hq HU.
    destruct (UpdateStates_inv _ _ _ _ _ HU) as (_ & Ht & Hev & _).
    assert (E : poseDue w c = false).
    { destruct (poseDue w c) eqn:E; [|done]. apply poseDue_iff in E. lra. }
    by rewrite E in Ht, Hev.
  - intros _. rewrite SetControl_spec. by intros [= _ <- <-].
Qed.

(** X3.  The pose interval is counted from the last publication only.
    While for every tick of a run the milliseconds since
    [lastPosePublishTime], as the code computes them, do not exceed
    [poseUpdateRate], nothing is published and [lastPosePublishTime] stays
    put, however many ticks there are and whoever subscribes. *)
Theorem no_pose_within_interval (acts : list Action) (c : ZephyrController) :
  (3 ≤ length (joints_ c))%nat →
  Forall (withinInterval (lastPosePublishTime c) (poseUpdateRate c)) acts →
  ∃ c' evs,
    run acts c = Some (tt, c', evs)
    ∧ filter isPublishPose evs = []
    ∧ lastPosePublishTime c' = lastPosePublishTime c.
Proof.
  intros H3 Hq.
  assert (Hs : is_Some (run acts c)) by (apply run_defined_iff_aux; by left).
  destruct Hs as [[[[] c'] evs] Hr]. exists c', evs. split; [exact Hr|].
  clear H3. revert c evs Hq Hr. induction acts as [|a rest IH]; intros c evs Hq Hr.
  - by injection Hr as <- <-.
  - simpl in Hr. apply bind_inv in Hr.
    destruct Hr as (u1 & c1 & e1 & e2 & Ha & Hr & ->).
    inversion Hq as [|? ? Hqa Hqr]; subst.
    destruct (step_pose_quiet _ _ _ _ _ Hqa Ha) as [He1 Ht1].
    destruct (step_keeps _ _ _ _ _ Ha) as (_ & _ & Hrate).
    rewrite <- Ht1, <- Hrate in Hqr.
    destruct (IH _ _ Hqr Hr) as [He2 Ht2].
    rewrite filter_app, He1, He2. split; [done | congruence].
Qed.

Lemma no_pose_within_interval_witness :
  (3 ≤ length (joints_ sample_after_reset))%nat
  ∧ Forall (withinInterval 0.5 100) (map tick_at (seq 1 10))
  ∧ ∃ c' evs,
      run (map tick_at (seq 1 10)) sample_after_reset = Some (tt, c', evs)
      ∧ filter isPublishPose evs = []
      ∧ lastPosePublishTime c' = 0.5.
Proof.
  assert (H3 : (3 ≤ length (joints_ sample_after_reset))%nat) by (simpl; lia).
  assert (Hq : Forall (withinInterval 0.5 100) (map tick_at (seq 1 10)))
    by (simpl; repeat constructor; discriminate).
  split; [exact H3|]. split; [exact Hq|].
  exact (no_pose_within_interval (map tick_at (seq 1 10)) sample_after_reset H3 Hq).
Defined.

Lemma step_pose_count a c u c' evs :
  step a c = Some (u, c', evs) →
  (length (filter isPublishPose evs) ≤ if hasPoseSubscriber a then 1 else 0)%nat.
Proof.
  destruct a as [w | m]; simpl.
  - intros HU. destruct (UpdateStates_inv _ _ _ _ _ HU) as (_ & _ & Hev & _).
    rewrite Hev. unfold poseDue.
    destruct (0 <? poseSubscribers w)%nat; simpl; [|lia].
    destruct (Qlt_bool _ _); simpl; lia.
  - rewrite SetControl_spec. intros [= _ _ <-]. simpl. lia.
Qed.

(** X4.  Over a run, the number of poses published never exceeds the
    number of ticks that saw a subscriber on the pose topic: no tick
    publishes twice, no tick publishes to nobody, and a command message
    never publishes. *)
Theorem poses_bounded_by_subscribed_ticks (acts : list Action) (c : ZephyrController) :
  (3 ≤ length (joints_ c))%nat →
  ∃ c' evs,
    run acts c = Some (tt, c', evs)
    ∧ (length (filter isPublishPose evs)
       ≤ length (filter hasPoseSubscriber acts))%nat.
Proof.
  intros H3.
  assert (Hs : is_Some (run acts c)) by (apply run_defined_iff_aux; by left).
  destruct Hs as [[[[] c'] evs] Hr]. exists c', evs. split; [exact Hr|].
  clear H3. revert c evs Hr. induction acts as [|a rest IH]; intros c evs Hr.
  - injection Hr as _ <-. simpl. lia.
  - simpl in Hr. apply bind_inv in Hr.
    destruct Hr as (u1 & c1 & e1 & e2 & Ha & Hr & ->).
    pose proof (step_pose_count _ _ _ _ _ Ha) as H1.
    pose proof (IH _ _ Hr) as H2.
    rewrite filter_app, length_app. revert H1.
    destruct (hasPoseSubscriber a) eqn:E; intros H1.
    + rewrite filter_cons_True by (by apply Is_true_true). simpl. lia.
    + rewrite filter_cons_False by (by apply Is_true_false). lia.
Qed.

Lemma poses_bounded_by_subscribed_ticks_witness :
  (3 ≤ length (joints_ sample_controller))%nat
  ∧ ∃ c' evs,
      run (map tick_at (seq 1 100)) sample_controller = Some (tt, c', evs)
      ∧ (length (filter isPublishPose evs) ≤ 100)%nat.
Proof.
  assert (H3 : (3 ≤ length (joints_ sample_controller))%nat) by (simpl; lia).
  split; [exact H3|].
  destruct (poses_bounded_by_subscribed_ticks (map tick_at (seq 1 100))
              sample_controller H3) as (c' & evs & Hr & Hle).
  exists c', evs. split; [exact Hr|]. exact Hle.
Defined.

(** ** Elapsed time from tick to tick *)

Lemma run_lastUpdateTime acts c u c' evs :
  run acts c = Some (u, c', evs) →
  lastUpdateTime c' = match lastTick acts with
                      | Some w => SimTime w
                      | None => lastUpdateTime c
                      end.
Proof.
  revert c evs. induction acts as [|a rest IH]; intros c evs H.
  - by injection H as _ <- _.
  - simpl in H. apply bind_inv in H. destruct H as (u1 & c1 & e1 & e2 & Ha & Hr & _).
    rewrite (IH _ _ Hr). simpl. destruct (lastTick rest); [done|].
    destruct a as [w | m]; simpl in Ha.
    + by destruct (UpdateStates_inv _ _ _ _ _ Ha) as (-> & _).
    + rewrite SetControl_spec in Ha. by injection Ha as _ <- _.
Qed.

(** X5.  The elapsed time a tick hands to [CalculateJoints] is the
    simulation time since the previous tick, whether or not that tick
    commanded the joints and whatever messages came in between; it is
    negative when the clock was set back, and it is forced to zero when the
    previous tick happened at simulation time zero, which the code cannot
    tell from a controller that was never ticked. *)
Theorem dt_is_time_since_previous_tick (acts : list Action) (c : ZephyrController)
    (w1 w : World) :
  (3 ≤ length (joints_ c))%nat →
  lastTick acts = Some w1 →
  (0 < controlPublishers w)%nat →
  ∃ c1 evs1 c2 evs2 cj,
    run acts c = Some (tt, c1, evs1)
    ∧ UpdateStates w c1 = Some (tt, c2, evs2)
    ∧ CalculateJoints w (targetThrottle c1) (targetPitch c1) (targetRoll c1)
        (if Qeq_bool (SimTime w1) 0 then 0 else SimTime w - SimTime w1) c1
      = Some (tt, cj, filter isActuatorCommand evs2)
    ∧ joints_ c2 = joints_ cj.
Proof.
  intros H3 Hlast Hp.
  assert (Hs : is_Some (run acts c)) by (apply run_defined_iff_aux; by left).
  destruct Hs as [[[[] c1] evs1] Hr].
  destruct (run_keeps _ _ _ _ _ Hr) as (Hlen & _).
  destruct (UpdateStates_total w c1) as (c2 & evs2 & HU); [right; lia|].
  exists c1, evs1, c2, evs2.
  destruct (UpdateStates_inv _ _ _ _ _ HU) as (_ & _ & _ & _ & HJ).
  apply Nat.ltb_lt in Hp. rewrite Hp in HJ. destruct HJ as (cj & HJ & Hjs).
  exists cj. split; [exact Hr|]. split; [exact HU|]. split; [|exact Hjs].
  unfold tick_dt in HJ. rewrite (run_lastUpdateTime _ _ _ _ _ Hr), Hlast in HJ.
  exact HJ.
Qed.

Lemma dt_is_time_since_previous_tick_witness :
  (3 ≤ length (joints_ sample_controller))%nat
  ∧ lastTick sample_run = Some (sample_tickw 20)
  ∧ (0 < controlPublishers (sample_tickw 10))%nat
  ∧ ∃ c1 evs1 c2 evs2 cj,
      run sample_run sample_controller = Some (tt, c1, evs1)
      ∧ UpdateStates (sample_tickw 10) c1 = Some (tt, c2, evs2)
      ∧ CalculateJoints (sample_tickw 10) 1 0 0
          (SimTime (sample_tickw 10) - SimTime (sample_tickw 20)) c1
        = Some (tt, cj, filter isActuatorCommand evs2)
      ∧ joints_ c2 = joints_ cj.
Proof.
  assert (H3 : (3 ≤ length (joints_ sample_controller))%nat) by (simpl; lia).
  assert (Hp : (0 < controlPublishers (sample_tickw 10))%nat) by (simpl; lia).
  split; [exact H3|]. split; [reflexivity|]. split; [exact Hp|].
  destruct (dt_is_time_since_previous_tick sample_run sample_controller
              (sample_tickw 20) (sample_tickw 10) H3 eq_refl Hp)
    as (c1 & evs1 & c2 & evs2 & cj & Hr & HU & HJ & Hjs).
  exists c1, evs1, c2, evs2, cj. split; [exact Hr|]. split; [exact HU|].
  split; [|exact Hjs].
  assert (Hc1 : run sample_run sample_controller = Some (tt, c1, evs1)) by exact Hr.
  vm_compute in Hc1. injection Hc1 as <- _. exact HJ.
Defined.

(** ** What a tick emits *)

(** X6.  The effects of a tick come in a fixed order: the pose, if one is
    due, is published before the first joint is commanded, and a tick
    writes nothing to the log. *)
Theorem tick_publishes_before_commanding (w : World) (c : ZephyrController) :
  controlPublishers w = 0%nat ∨ (3 ≤ length (joints_ c))%nat →
  ∃ c' evs,
    UpdateStates w c = Some (tt, c', evs)
    ∧ evs = filter isPublishPose evs ++ filter isActuatorCommand evs.
Proof.
  intros H. destruct (UpdateStates_total w c H) as (c' & evs & HU).
  exists c', evs. split; [exact HU|].
  rewrite UpdateStates_unfold in HU. cbv zeta in HU.
  destruct (0 <? controlPublishers w)%nat.
  - destruct (CalculateJoints _ _ _ _ _ _) as [[[u cj] ev2]|] eqn:HJ; [|done].
    injection HU as _ <-.
    destruct (CalculateJoints_inv _ _ _ _ _ _ _ _ _ HJ) as (_ & _ & _ & Hact & Hpose).
    rewrite !filter_app, Hact, Hpose. by destruct (poseDue w c).
  - injection HU as _ <-. by destruct (poseDue w c).
Qed.

Lemma tick_publishes_before_commanding_witness :
  (controlPublishers sample_world = 0%nat
   ∨ (3 ≤ length (joints_ sample_controller))%nat)
  ∧ ∃ c' m a b d,
      UpdateStates sample_world sample_controller
      = Some (tt, c', [PublishPose m; ActuatorCommand "propeller" a;
                       ActuatorCommand "left" b; ActuatorCommand "right" d]).
Proof.
  assert (H : controlPublishers sample_world = 0%nat
              ∨ (3 ≤ length (joints_ sample_controller))%nat) by (right; simpl; lia).
  split; [exact H|].
  destruct (tick_publishes_before_commanding sample_world sample_controller H)
    as (c' & evs & HU & _).
  vm_compute in HU. injection HU as <- <-.
  eexists _, _, _, _, _. reflexivity.
Defined.

(** ** From a message to the joints *)

(** X7.  A message followed by a tick: the message's [linear.x] goes to
    slot 0 unchanged; its [angular.y] is subtracted from the Euler X angle
    of the model and its [angular.x] from the Euler Y angle, and slots 1
    and 2 get the difference and the sum of these two errors.  The other
    three components of the message have no influence on the run. *)
Theorem message_reaches_joints (m : Twist) (w : World) (c : ZephyrController)
    j0 j1 j2 rest :
  joints_ c = j0 :: j1 :: j2 :: rest →
  (0 < controlPublishers w)%nat →
  ∃ c' evs,
    run [Command m; Tick w] c = Some (tt, c', evs)
    ∧ (let dt := if Qeq_bool (lastUpdateTime c) 0 then 0
                 else SimTime w - lastUpdateTime c in
       let errX := Vector3.x (Euler (Rot (WorldPose w))) - Vector3.y (angular m) in
       let errY := Vector3.y (Euler (Rot (WorldPose w))) - Vector3.x (angular m) in
       let r0 := JointControl.SetCommand j0 (Vector3.x (linear m)) dt in
       let r1 := JointControl.SetCommand j1 (errX - errY) dt in
       let r2 := JointControl.SetCommand j2 (errX + errY) dt in
       joints_ c' = r0.1 :: r1.1 :: r2.1 :: rest
       ∧ filter isActuatorCommand evs = r0.2 ++ r1.2 ++ r2.2)
    ∧ ∀ m', setpointOf m' = setpointOf m →
        run [Command m'; Tick w] c = Some (tt, c', evs).
Proof.
  intros Hj Hp.
  set (c1 := mkController (lastUpdateTime c) (lastPosePublishTime c)
               (Vector3.x (linear m)) (Vector3.y (angular m)) (Vector3.x (angular m))
               (poseUpdateRate c) (joints_ c)).
  destruct (UpdateStates_total w c1) as (c' & evs & HU);
    [right; simpl; rewrite Hj; simpl; lia|].
  assert (Hrun : ∀ m', setpointOf m' = setpointOf m →
            run [Command m'; Tick w] c = Some (tt, c', evs)).
  { intros m' [= E1 E2 E3]. simpl. unfold bind. rewrite SetControl_spec.
    rewrite E1, E2, E3. fold c1. rewrite HU. simpl. by rewrite app_nil_r. }
  exists c', evs. split; [by apply Hrun|]. split; [|exact Hrun].
  cbv zeta.
  destruct (UpdateStates_inv _ _ _ _ _ HU) as (_ & _ & _ & _ & HJ).
  apply Nat.ltb_lt in Hp. rewrite Hp in HJ. destruct HJ as (cj & HJ & Hjs).
  rewrite (CalculateJoints_three _ _ _ _ _ c1 _ _ _ _ Hj) in HJ. cbv zeta in HJ.
  injection HJ as <- <-. split; [exact Hjs | done].
Qed.

Lemma message_reaches_joints_witness :
  joints_ sample_controller
    = sample_joint "propeller" :: sample_joint "left" :: sample_joint "right" :: []
  ∧ (0 < controlPublishers sample_world)%nat
  ∧ ∃ c' evs a b d,
      run [Command (sample_twist 1 0.1 0.2); Tick sample_world] sample_controller
      = Some (tt, c', evs)
      ∧ filter isActuatorCommand evs
        = [ActuatorCommand "propeller" a; ActuatorCommand "left" b;
           ActuatorCommand "right" d]
      ∧ a == 1 ∧ b == (0.3 - 0.1) - (0 - 0.2) ∧ d == (0.3 - 0.1) + (0 - 0.2).
Proof.
  assert (Hp : (0 < controlPublishers sample_world)%nat) by (simpl; lia).
  split; [reflexivity|]. split; [exact Hp|].
  destruct (message_reaches_joints (sample_twist 1 0.1 0.2) sample_world
              sample_controller _ _ _ [] eq_refl Hp)
    as (c' & evs & Hr & [_ Hev] & _).
  exists c', evs. eexists _, _, _. split; [exact Hr|]. split; [exact Hev|].
  repeat split; reflexivity.
Defined.

(** ** Loading, once more *)

Lemma loadLog_filter host es :
  concat (map (loadLog host) es)
  = map jointError (filter (λ e, sdf_name e ∉ modelJoints host) es).
Proof.
  induction es as [|e es IH]; [done|]. simpl. rewrite IH. unfold loadLog.
  destruct (decide (sdf_name e ∈ modelJoints host)) as [Hin | Hnin].
  - rewrite bool_decide_eq_true_2 by done.
    by rewrite filter_cons_False by (intros Hn; by apply Hn).
  - rewrite bool_decide_eq_false_2 by done.
    by rewrite filter_cons_True by done.
Qed.

(** X8.  [Load] checks for the ROS node only after it has read the
    configuration: with or without the node, the controller ends up with
    the configured pose interval in place of the constructor's 100 and with
    one new binding per element appended, in order, behind the bindings it
    already had, while both timestamps and the setpoint are untouched.  The
    node decides only the return value and a final fatal log entry. *)
Theorem Load_reads_configuration_first decode (host : Host) (_sdf : Sdf)
    (c : ZephyrController) :
  ∃ c' log,
    Load decode host _sdf c = Some (rosInitialized host, c', log)
    ∧ poseUpdateRate c' = sdf_poseUpdateRate _sdf
    ∧ take (length (joints_ c)) (joints_ c') = joints_ c
    ∧ map JointControl.jointName (drop (length (joints_ c)) (joints_ c'))
      = map sdf_name (joint_control _sdf)
    ∧ (lastUpdateTime c', lastPosePublishTime c', setpoint c')
      = (lastUpdateTime c, lastPosePublishTime c, setpoint c)
    ∧ ∀ host', modelJoints host' = modelJoints host →
        ∃ log', Load decode host' _sdf c = Some (rosInitialized host', c', log')
          ∧ (rosInitialized host' = false → last log' = Some LogFatal).
Proof.
  eexists _, _. split; [apply Load_spec|]. simpl.
  split; [done|]. split; [by rewrite take_app_length|]. split.
  - rewrite drop_app_length, map_map. apply map_ext. intros e.
    unfold bindingOf. by rewrite (proj1 (SetPIDParams_fields _ _)).
  - split; [done|]. intros host' Hm. eexists. split.
    + rewrite Load_spec.
      assert (E : map (bindingOf decode host') (joint_control _sdf)
                  = map (bindingOf decode host) (joint_control _sdf)).
      { apply map_ext. intros e. unfold bindingOf, GetJoint. by rewrite Hm. }
      rewrite E. reflexivity.
    + intros ->. by rewrite last_snoc.
Qed.

Lemma Load_reads_configuration_first_witness :
  ∃ c' log log',
    Load sample_decode sample_host sample_sdf ZephyrController_new = Some (true, c', log)
    ∧ Load sample_decode sample_host_no_ros sample_sdf ZephyrController_new
      = Some (false, c', log')
    ∧ poseUpdateRate c' = 100%Z
    ∧ map JointControl.jointName (joints_ c')
      = ["propeller_joint"; "flap_left_joint"; "flap_right_joint"]
    ∧ last log' = Some LogFatal.
Proof.
  destruct (Load_reads_configuration_first sample_decode sample_host sample_sdf
              ZephyrController_new) as (c' & log & HL & Hrate & _ & Hnames & _ & Hros).
  destruct (Hros sample_host_no_ros eq_refl) as (log' & HL' & Hlast).
  exists c', log, log'. split; [exact HL|]. split; [exact HL'|].
  split; [exact Hrate|]. split; [exact Hnames|]. by apply Hlast.
Defined.

(** X9.  The log of [Load] holds exactly one error per element whose joint
    the host model lacks, in the order of the elements, then the fatal
    entry if the ROS node is missing, and nothing else: loading commands no
    joint and publishes no pose. *)
Theorem Load_log_exact decode (host : Host) (_sdf : Sdf) (c : ZephyrController) :
  ∃ c' log,
    Load decode host _sdf c = Some (rosInitialized host, c', log)
    ∧ log = map jointError
              (filter (λ e, sdf_name e ∉ modelJoints host) (joint_control _sdf))
            ++ (if rosInitialized host then [] else [LogFatal])
    ∧ filter isPublishPose log = []
    ∧ filter isActuatorCommand log = [].
Proof.
  eexists _, _. split; [apply Load_spec|]. rewrite loadLog_filter.
  split; [done|].
  assert (H : ∀ es, filter isPublishPose (map jointError es) = []
                    ∧ filter isActuatorCommand (map jointError es) = []).
  { induction es as [|e es [IH1 IH2]]; [done|]. simpl. split.
    - by rewrite filter_cons_False by (intros []).
    - by rewrite filter_cons_False by (intros []). }
  rewrite !filter_app. destruct (H (filter (λ e, sdf_name e ∉ modelJoints host)
                                      (joint_control _sdf))) as [-> ->].
  by destruct (rosInitialized host).
Qed.

Lemma Load_log_exact_witness :
  ∃ c',
    Load sample_decode sample_host_no_ros sample_sdf ZephyrController_new
    = Some (false, c',
            [LogError ("cannot get joint with name:flap_left_joint" +:+ endl);
             LogFatal]).
Proof.
  destruct (Load_log_exact sample_decode sample_host_no_ros sample_sdf
              ZephyrController_new) as (c' & log & HL & Hlog & _).
  exists c'. rewrite HL, Hlog. reflexivity.
Defined.
